(** * go-redisdb: a shallow embedding of [redisdb.go]

    The package wraps a pooled redigo connection.  Every operation borrows a
    connection, issues commands through [conn.Do], converts the reply with one
    of redigo's helpers and releases the connection.

    Layout of the development:
    - Go values: slices and maps with their nil value, panics, errors;
    - [strconv] and [redis]: the conversion helpers of the Go library and of
      redigo that [redisdb.go] calls, written out from their sources;
    - [newPool] and its [Dial] closure, which the pool calls when it has to
      open a session;
    - the operations of [RedisDatabase], over an arbitrary store reached
      through [conn.Do]; an operation asks the pool for a connection, which
      may end in the panic of [Dial], and the world keeps the trace of what
      it borrows, sends and releases;
    - the scan loop and the reconciler as the specification words them;
    - the properties.

    The signal hook and the process-wide pool variable ([cleanupHook],
    [SetupDatabase], [GetDatabase]) are outside the embedding: a handle is
    taken as holding the pool that [newPool] built. *)

From Stdlib Require Import ZArith String Ascii List Lia.
From stdpp Require Import gmap strings list pretty.

Local Open Scope Z_scope.

(** ** Go values *)

(** A slice is [nil] or holds elements; [len] of the nil slice is 0. *)
Definition slice (A : Type) : Type := option (list A).

Definition elems {A} (s : slice A) : list A :=
  match s with
  | Some l => l
  | None => []
  end.

Definition len {A} (s : slice A) : nat := length (elems s).

(** [append(s, k...)]: appending nothing to the nil slice leaves it nil. *)
Definition append {A} (s k : slice A) : slice A :=
  match s, elems k with
  | None, [] => None
  | _, ks => Some (elems s ++ ks)
  end.

(** The value carried by a panic. *)
Inductive panic_value : Type :=
| IndexOutOfRange (i : nat) (length : nat)
| PanicString (msg : string).

(** A call returns normally or panics. *)
Inductive outcome (A : Type) : Type :=
| Ret (a : A)
| Panic (p : panic_value).
Arguments Ret {A} a.
Arguments Panic {A} p.

(** Go error values; [None : option error] is the nil error. *)
Inductive error : Type :=
| errorString (s : string)                     (* errors.New, fmt.Errorf *)
| ErrNil                                       (* redis.ErrNil *)
| redisError (s : string)                      (* redis.Error: an error reply *)
| ErrSyntax                                    (* strconv.ErrSyntax *)
| ErrRange                                     (* strconv.ErrRange *)
| NumError (Func Num : string) (Err : error)   (* *strconv.NumError *)
| transportError (s : string).                 (* any other error of conn.Do *)

Definition dquote : string := String (ascii_of_nat 34) EmptyString.
Definition backslash : string := String (ascii_of_nat 92) EmptyString.

Definition hexdigit (n : nat) : ascii :=
  ascii_of_nat (if Nat.ltb n 10 then 48 + n else 87 + n).

Definition hex2 (n : nat) : string :=
  String (hexdigit (n / 16)%nat)
    (String (hexdigit (n mod 16)%nat) EmptyString).

Definition hex4 (n : N) : string :=
  hex2 (N.to_nat (n / 256)) +:+ hex2 (N.to_nat (n mod 256)).

(** One ASCII byte as [strconv.Quote] writes it. *)
Definition quote_ascii (c : ascii) : string :=
  let n := nat_of_ascii c in
  if Nat.eqb n 34 then backslash +:+ dquote
  else if Nat.eqb n 92 then backslash +:+ backslash
  else if Nat.eqb n 7 then backslash +:+ "a"
  else if Nat.eqb n 8 then backslash +:+ "b"
  else if Nat.eqb n 12 then backslash +:+ "f"
  else if Nat.eqb n 10 then backslash +:+ "n"
  else if Nat.eqb n 13 then backslash +:+ "r"
  else if Nat.eqb n 9 then backslash +:+ "t"
  else if Nat.eqb n 11 then backslash +:+ "v"
  else if Nat.ltb n 32 || Nat.eqb n 127 then backslash +:+ "x" +:+ hex2 n
  else String c EmptyString.

Definition between (lo hi b : N) : bool := N.leb lo b && N.leb b hi.

(** UTF-8 sequences of two, three and four bytes as [utf8.DecodeRune]
    accepts them, with the rune they encode. *)
Definition rune2 (b0 b1 : N) : option N :=
  if between 194 223 b0 && between 128 191 b1
  then Some ((b0 - 192) * 64 + (b1 - 128))%N
  else None.

Definition rune3 (b0 b1 b2 : N) : option N :=
  if between 224 239 b0
     && between (if N.eqb b0 224 then 160 else 128)
                (if N.eqb b0 237 then 159 else 191) b1
     && between 128 191 b2
  then Some ((b0 - 224) * 4096 + (b1 - 128) * 64 + (b2 - 128))%N
  else None.

Definition rune4 (b0 b1 b2 b3 : N) : option N :=
  if between 240 244 b0
     && between (if N.eqb b0 240 then 144 else 128)
                (if N.eqb b0 244 then 143 else 191) b1
     && between 128 191 b2 && between 128 191 b3
  then Some ((b0 - 240) * 262144 + (b1 - 128) * 4096 + (b2 - 128) * 64
             + (b3 - 128))%N
  else None.

(** [strconv.IsPrint] on a rune outside ASCII.  Up to U+00FF this is Go's
    test.  Above, Go looks the rune up in tables of ranges that are not
    written out here: those runes are taken as printable. *)
Definition IsPrint (r : N) : bool :=
  if N.leb r 255 then between 161 255 r && negb (N.eqb r 173) else true.

(** A rune outside ASCII, given with the bytes that encode it: kept when
    printable, else written as [\uXXXX] or [\UXXXXXXXX]. *)
Definition quote_rune (r : N) (bytes : string) : string :=
  if IsPrint r then bytes
  else if N.ltb r 65536 then backslash +:+ "u" +:+ hex4 r
  else backslash +:+ "U" +:+ hex4 (r / 65536) +:+ hex4 (r mod 65536).

(** [strconv.Quote] between the quotes: ASCII is escaped byte by byte, valid
    UTF-8 goes rune by rune, and a byte that starts no valid sequence is
    written as [\xNN]. *)
Fixpoint quote_body (s : string) : string :=
  match s with
  | EmptyString => EmptyString
  | String c0 s1 =>
      let b0 := N_of_ascii c0 in
      let invalid :=
        backslash +:+ "x" +:+ hex2 (nat_of_ascii c0) +:+ quote_body s1 in
      if N.ltb b0 128 then quote_ascii c0 +:+ quote_body s1
      else
        match s1 with
        | EmptyString => invalid
        | String c1 s2 =>
            let b1 := N_of_ascii c1 in
            match rune2 b0 b1 with
            | Some r =>
                quote_rune r (String c0 (String c1 EmptyString))
                +:+ quote_body s2
            | None =>
                match s2 with
                | EmptyString => invalid
                | String c2 s3 =>
                    let b2 := N_of_ascii c2 in
                    match rune3 b0 b1 b2 with
                    | Some r =>
                        quote_rune r
                          (String c0 (String c1 (String c2 EmptyString)))
                        +:+ quote_body s3
                    | None =>
                        match s3 with
                        | EmptyString => invalid
                        | String c3 s4 =>
                            match rune4 b0 b1 b2 (N_of_ascii c3) with
                            | Some r =>
                                quote_rune r
                                  (String c0
                                     (String c1
                                        (String c2 (String c3 EmptyString))))
                                +:+ quote_body s4
                            | None => invalid
                            end
                        end
                    end
                end
            end
        end
  end.

Definition Quote (s : string) : string := dquote +:+ quote_body s +:+ dquote.

(** [err.Error()], also what [%v] prints for an error. *)
Fixpoint Error (e : error) : string :=
  match e with
  | errorString s => s
  | ErrNil => "redigo: nil returned"
  | redisError s => s
  | ErrSyntax => "invalid syntax"
  | ErrRange => "value out of range"
  | NumError f n e' =>
      "strconv." +:+ f +:+ ": parsing " +:+ Quote n +:+ ": " +:+ Error e'
  | transportError s => s
  end.

(** Go's [int] and [int64] are 64 bits wide. *)
Definition maxInt64 : Z := 2 ^ 63 - 1.
Definition minInt64 : Z := - 2 ^ 63.
Definition maxUint64 : Z := 2 ^ 64 - 1.

(** Conversion between [int64] and [int]: two's complement wrap to 64 bits. *)
Definition wrap64 (z : Z) : Z := (z + 2 ^ 63) mod 2 ^ 64 - 2 ^ 63.

(** ** strconv *)

Module strconv.

Definition syntaxError (fn str : string) : error := NumError fn str ErrSyntax.
Definition rangeError (fn str : string) : error := NumError fn str ErrRange.

(** The digit loop of [ParseUint] for base 10 and 64 bits: [n] is the value
    read so far, [s] what is left, [s0] the whole input. *)
Fixpoint ParseUint_loop (s0 s : string) (n : Z) : Z * option error :=
  match s with
  | EmptyString => (n, None)
  | String c rest =>
      let b := Z.of_nat (nat_of_ascii c) in
      if (48 <=? b) && (b <=? 57) then
        let d := b - 48 in
        if maxUint64 / 10 + 1 <=? n then
          (maxUint64, Some (rangeError "ParseUint" s0))
        else
          let n1 := n * 10 + d in
          if maxUint64 <? n1 then
            (maxUint64, Some (rangeError "ParseUint" s0))
          else ParseUint_loop s0 rest n1
      else (0, Some (syntaxError "ParseUint" s0))
  end.

Definition ParseUint (s : string) : Z * option error :=
  match s with
  | EmptyString => (0, Some (syntaxError "ParseUint" s))
  | _ => ParseUint_loop s s 0
  end.

Definition is_range (e : option error) : bool :=
  match e with
  | Some (NumError _ _ ErrRange) => true
  | _ => false
  end.

(** [ParseInt(s, 10, 0)]: on a range error the result saturates. *)
Definition ParseInt (s0 : string) : Z * option error :=
  match s0 with
  | EmptyString => (0, Some (syntaxError "ParseInt" s0))
  | String c rest =>
      let neg := Ascii.eqb c "-" in
      let s := if Ascii.eqb c "+" || neg then rest else s0 in
      let (un, err) := ParseUint s in
      let cutoff := 2 ^ 63 in
      if bool_decide (err <> None) && negb (is_range err) then
        (0, Some (syntaxError "ParseInt" s0))
      else if negb neg && (cutoff <=? un) then
        (cutoff - 1, Some (rangeError "ParseInt" s0))
      else if neg && (cutoff <? un) then
        (- cutoff, Some (rangeError "ParseInt" s0))
      else (if neg then - un else un, None)
  end.

Definition ParseBool (str : string) : bool * option error :=
  if String.eqb str "1" || String.eqb str "t" || String.eqb str "T"
     || String.eqb str "true" || String.eqb str "TRUE" || String.eqb str "True"
  then (true, None)
  else if String.eqb str "0" || String.eqb str "f" || String.eqb str "F"
          || String.eqb str "false" || String.eqb str "FALSE"
          || String.eqb str "False"
  then (false, None)
  else (false, Some (syntaxError "ParseBool" str)).

End strconv.

(** ** redigo: replies and the conversion helpers of [reply.go]

    [Strings] and [StringMap] are those of redigo 1.8.9 and 1.9: beside an
    error about an item they return what they had converted by then.  The
    other helpers are the same in every release. *)

Module redis.

(** What [conn.Do] hands back as [interface{}]. *)
#[warnings="-register-all"]
Inductive reply : Type :=
| rNil                        (* nil: no reply, absent bulk string or array *)
| rInt (n : Z)                (* int64: integer reply *)
| rBytes (p : string)         (* []byte: bulk string *)
| rString (s : string)        (* string: simple string *)
| rError (s : string)         (* redis.Error: error reply *)
| rArray (a : list reply).    (* []interface{}: array reply *)

(** What [%T] prints. *)
Definition typeName (r : reply) : string :=
  match r with
  | rNil => "<nil>"
  | rInt _ => "int64"
  | rBytes _ => "[]uint8"
  | rString _ => "string"
  | rError _ => "redis.Error"
  | rArray _ => "[]interface {}"
  end.

Definition unexpected (helper : string) (r : reply) : error :=
  errorString ("redigo: unexpected type for " +:+ helper +:+ ", got type "
               +:+ typeName r).

Definition Int (r : reply) (err : option error) : Z * option error :=
  match err with
  | Some _ => (0, err)
  | None =>
      match r with
      | rInt n =>
          let x := wrap64 n in
          if negb (x =? n) then (0, Some ErrRange) else (x, None)
      | rBytes p =>
          let (n, err) := strconv.ParseInt p in (wrap64 n, err)
      | rNil => (0, Some ErrNil)
      | rError s => (0, Some (redisError s))
      | _ => (0, Some (unexpected "Int" r))
      end
  end.

Definition String (r : reply) (err : option error) : string * option error :=
  match err with
  | Some _ => ("", err)
  | None =>
      match r with
      | rBytes p => (p, None)
      | rString s => (s, None)
      | rNil => ("", Some ErrNil)
      | rError s => ("", Some (redisError s))
      | _ => ("", Some (unexpected "String" r))
      end
  end.

(** A [[]byte] result: [None] is the nil slice. *)
Definition Bytes (r : reply) (err : option error)
  : option string * option error :=
  match err with
  | Some _ => (None, err)
  | None =>
      match r with
      | rBytes p => (Some p, None)
      | rString s => (Some s, None)
      | rNil => (None, Some ErrNil)
      | rError s => (None, Some (redisError s))
      | _ => (None, Some (unexpected "Bytes" r))
      end
  end.

Definition Bool (r : reply) (err : option error) : bool * option error :=
  match err with
  | Some _ => (false, err)
  | None =>
      match r with
      | rInt n => (negb (n =? 0), None)
      | rBytes p => strconv.ParseBool p
      | rNil => (false, Some ErrNil)
      | rError s => (false, Some (redisError s))
      | _ => (false, Some (unexpected "Bool" r))
      end
  end.

Definition Values (r : reply) (err : option error)
  : slice reply * option error :=
  match err with
  | Some _ => (None, err)
  | None =>
      match r with
      | rArray a => (Some a, None)
      | rNil => (None, Some ErrNil)
      | rError s => (None, Some (redisError s))
      | _ => (None, Some (unexpected "Values" r))
      end
  end.

(** The element loop of [Strings].  The result starts as a slice of empty
    strings, one per item; nil items are skipped, simple and bulk strings
    are copied in, and the first item of another type ends the loop with an
    error: the strings copied so far stay, the rest stay empty. *)
Fixpoint Strings_loop (a : list reply) : list string * option error :=
  match a with
  | [] => ([], None)
  | x :: rest =>
      match x with
      | rNil => let (l, e) := Strings_loop rest in ("" :: l, e)
      | rString s => let (l, e) := Strings_loop rest in (s :: l, e)
      | rBytes p => let (l, e) := Strings_loop rest in (p :: l, e)
      | _ =>
          (replicate (length a) "",
           Some (errorString
                   ("redigo: unexpected element type for Strings, got type "
                    +:+ typeName x)))
      end
  end.

Definition Strings (r : reply) (err : option error)
  : slice string * option error :=
  match err with
  | Some _ => (None, err)
  | None =>
      match r with
      | rArray a => let (l, e) := Strings_loop a in (Some l, e)
      | rNil => (None, Some ErrNil)
      | rError s => (None, Some (redisError s))
      | _ => (None, Some (unexpected "Strings" r))
      end
  end.

(** The pair loop of [StringMap], on an array of even length, from index
    [i]: a key or a value that is not a bulk string ends the loop with an
    error, and the pairs entered so far stay in the map. *)
Fixpoint StringMap_loop (i : nat) (a : list reply) (m : gmap string string)
  : gmap string string * option error :=
  match a with
  | key :: value :: rest =>
      match key with
      | rBytes k =>
          match value with
          | rBytes v => StringMap_loop (i + 2) rest (<[k := v]> m)
          | _ =>
              (m, Some (errorString
                          ("redigo: StringMap for " +:+ Quote k
                           +:+ " not a bulk string value, got "
                           +:+ typeName value)))
          end
      | _ =>
          (m, Some (errorString
                      ("redigo: StringMap key[" +:+ pretty i
                       +:+ "] not a bulk string value, got "
                       +:+ typeName key)))
      end
  | _ => (m, None)
  end.

(** A [map[string]string] result: [None] is the nil map. *)
Definition StringMap (r : reply) (err : option error)
  : option (gmap string string) * option error :=
  match Values r err with
  | (_, Some e) => (None, Some e)
  | (values, None) =>
      if negb (Nat.eqb (len values mod 2) 0) then
        (None,
         Some (errorString
                 ("redigo: StringMap expects even number of values result, got "
                  +:+ pretty (len values))))
      else
        let (m, e) := StringMap_loop 0 (elems values) ∅ in (Some m, e)
  end.

End redis.

Arguments redis.Int r err : simpl never.
Arguments redis.Strings r err : simpl never.

(** ** The package [redisdb] *)

(** [s[i]]: indexing past the end panics. *)
Definition index {A} (s : slice A) (i : nat) : outcome A :=
  match elems s !! i with
  | Some x => Ret x
  | None => Panic (IndexOutOfRange i (len s))
  end.

(** The loop of [spliceMap]: [n] iterations are left, [i] is the loop
    variable, so that [n = lenKeys - i]. *)
Fixpoint spliceMap_loop (n i : nat) (keys values : slice string)
    (result : gmap string string) : outcome (gmap string string) :=
  match n with
  | O => Ret result
  | S n' =>
      match index keys i with
      | Panic p => Panic p
      | Ret k =>
          match index values i with
          | Panic p => Panic p
          | Ret v => spliceMap_loop n' (S i) keys values (<[k := v]> result)
          end
      end
  end.

Definition spliceMap (keys values : slice string) (err : option error)
  : outcome (option (gmap string string) * option error) :=
  if bool_decide (keys = None) || bool_decide (values = None) then
    if bool_decide (err = None) then
      Ret (None, Some (errorString "redis: cannot splice keys supplied to HMGET with values returned because one or both slices are nil"))
    else Ret (None, err)
  else
    let lenKeys := len keys in
    let lenValues := len values in
    if negb (Nat.eqb lenKeys lenValues) then
      if bool_decide (err = None) then
        Ret (None, Some (errorString "redis: cannot splice keys supplied to HMGET with values returned because their lengths are different"))
      else Ret (None, err)
    else
      match spliceMap_loop lenKeys 0 keys values ∅ with
      | Panic p => Panic p
      | Ret result => Ret (Some result, err)
      end.

(** ** The pool *)

Section Pool.

(** A live session, and the library call that opens one. *)
Variable Conn : Type.
Variable DialURL : string -> option Conn * option error.

Record Pool : Type := mkPool {
  MaxIdle : Z;
  MaxActive : Z;
  Dial : unit -> outcome (option Conn * option error)
}.

Definition newPool (redisURL : string) : Pool :=
  {| MaxIdle := 80;
     MaxActive := 12000;
     Dial := fun _ =>
       let '(c, err) := DialURL redisURL in
       match err with
       | Some e => Panic (PanicString (Error e))
       | None => Ret (c, err)
       end |}.

End Pool.

Arguments MaxIdle {Conn} p.
Arguments MaxActive {Conn} p.
Arguments Dial {Conn} p _.

(** The handle of the package: it holds the pool that [SetupDatabase] built
    with [newPool]. *)
Record RedisDatabase (Conn : Type) : Type :=
  mkRedisDatabase { redisPool : Pool Conn }.

Arguments mkRedisDatabase {Conn} redisPool.
Arguments redisPool {Conn} r.

(** ** The operations *)

(** An argument of [conn.Do]. *)
Inductive arg : Type :=
| aInt (n : Z)
| aString (s : string)
| aBytes (b : string).

(** The calls an operation makes on the pool and on the connection. *)
Inductive event : Type :=
| Borrow                                    (* d.redisPool.Get() *)
| Release                                   (* conn.Close() *)
| Command (name : string) (args : list arg). (* conn.Do(name, args...) *)

Section Client.

Variable Conn : Type.

(** The store behind the connections: any state, any answers.  [ready]
    tells whether the pool answers [Get] without dialing: it has an idle
    connection, or it is closed or exhausted and hands out a connection that
    only reports that. *)
Variable Store : Type.
Variable ready : Store -> bool.
Variable Do :
  Store -> string -> list arg -> redis.reply * option error * Store.

Record World : Type := mkWorld { store : Store; trace : list event }.

(** [d.redisPool.Get()].  When the pool has to dial it calls [Dial], and a
    panic of [Dial] is a panic of [Get]: it leaves before anything is
    borrowed and before the [defer] of an operation is set up.  A [Dial]
    that returns lets [Get] hand out a connection; had it returned an error,
    that connection would answer every command with the error, which is one
    of the answers [Do] ranges over. *)
Definition pool_Get (d : RedisDatabase Conn) (w : World) : outcome World :=
  if ready (store w) then Ret (mkWorld (store w) (trace w ++ [Borrow]))
  else
    match Dial (redisPool d) tt with
    | Panic p => Panic p
    | Ret _ => Ret (mkWorld (store w) (trace w ++ [Borrow]))
    end.

Definition conn_Close (w : World) : World :=
  mkWorld (store w) (trace w ++ [Release]).

Definition conn_Do (name : string) (args : list arg) (w : World)
  : redis.reply * option error * World :=
  let '(r, err, st) := Do (store w) name args in
  (r, err, mkWorld st (trace w ++ [Command name args])).

Definition Ping (d : RedisDatabase Conn) (w : World)
  : outcome (option error) * World :=
  match pool_Get d w with
  | Panic p => (Panic p, w)
  | Ret w =>
      let '(r, err, w) := conn_Do "PING" [] w in
      let '(_, err) := redis.String r err in
      match err with
      | Some e =>
          (Ret (Some (errorString ("cannot 'PING' db: " +:+ Error e))),
           conn_Close w)
      | None => (Ret None, conn_Close w)
      end
  end.

Definition Get (d : RedisDatabase Conn) (key : string) (w : World)
  : outcome (option string * option error) * World :=
  match pool_Get d w with
  | Panic p => (Panic p, w)
  | Ret w =>
      let '(r, err, w) := conn_Do "GET" [aString key] w in
      let '(data, err) := redis.Bytes r err in
      match err with
      | Some e =>
          (Ret (data,
                Some (errorString ("error getting key " +:+ key +:+ ": "
                                   +:+ Error e))),
           conn_Close w)
      | None => (Ret (data, err), conn_Close w)
      end
  end.

Definition Set_ (d : RedisDatabase Conn) (key : string) (value : string)
    (w : World)
  : outcome (option error) * World :=
  match pool_Get d w with
  | Panic p => (Panic p, w)
  | Ret w =>
      let '(_, err, w) := conn_Do "SET" [aString key; aBytes value] w in
      match err with
      | Some e =>
          let v := value in
          let v := if Nat.ltb 15 (String.length v)
                   then substring 0 12 v +:+ "..." else v in
          (Ret (Some (errorString ("error setting key " +:+ key +:+ " to "
                                   +:+ v +:+ ": " +:+ Error e))),
           conn_Close w)
      | None => (Ret err, conn_Close w)
      end
  end.

Definition Exists (d : RedisDatabase Conn) (key : string) (w : World)
  : outcome (bool * option error) * World :=
  match pool_Get d w with
  | Panic p => (Panic p, w)
  | Ret w =>
      let '(r, err, w) := conn_Do "EXISTS" [aString key] w in
      let '(ok, err) := redis.Bool r err in
      match err with
      | Some e =>
          (Ret (ok,
                Some (errorString ("error checking if key " +:+ key
                                   +:+ " exists: " +:+ Error e))),
           conn_Close w)
      | None => (Ret (ok, err), conn_Close w)
      end
  end.

Definition Delete (d : RedisDatabase Conn) (key : string) (w : World)
  : outcome (option error) * World :=
  match pool_Get d w with
  | Panic p => (Panic p, w)
  | Ret w =>
      let '(_, err, w) := conn_Do "DEL" [aString key] w in
      (Ret err, conn_Close w)
  end.

(** The [for] loop of [GetKeys]; [None] when [fuel] round trips were not
    enough to leave it. *)
Fixpoint GetKeys_loop (fuel : nat) (pattern : string) (iter : Z)
    (keys : slice string) (w : World)
  : option (outcome (slice string * option error) * World) :=
  match fuel with
  | O => None
  | S fuel' =>
      let '(r, err, w) :=
        conn_Do "SCAN" [aInt iter; aString "MATCH"; aString pattern] w in
      let '(arr, err) := redis.Values r err in
      match err with
      | Some _ =>
          Some (Ret (keys, Some (errorString ("error retrieving '" +:+ pattern
                                              +:+ "' keys"))), w)
      | None =>
          match index arr 0 with
          | Panic p => Some (Panic p, w)
          | Ret arr0 =>
              let '(iter, _) := redis.Int arr0 None in
              match index arr 1 with
              | Panic p => Some (Panic p, w)
              | Ret arr1 =>
                  let '(k, _) := redis.Strings arr1 None in
                  let keys := append keys k in
                  if iter =? 0 then Some (Ret (keys, None), w)
                  else GetKeys_loop fuel' pattern iter keys w
              end
          end
      end
  end.

(** The deferred [conn.Close()] runs on return and on a panic of the loop
    alike. *)
Definition GetKeys (d : RedisDatabase Conn) (fuel : nat) (pattern : string)
    (w : World)
  : option (outcome (slice string * option error) * World) :=
  match pool_Get d w with
  | Panic p => Some (Panic p, w)
  | Ret w =>
      match GetKeys_loop fuel pattern 0 None w with
      | Some (res, w) => Some (res, conn_Close w)
      | None => None
      end
  end.

Definition HMGet (d : RedisDatabase Conn) (key : string)
    (fields : slice string) (w : World)
  : outcome (option (gmap string string) * option error) * World :=
  if Nat.eqb (len fields) 0 then
    (Ret (None, Some (errorString "redis: at least once field is required")), w)
  else
    match pool_Get d w with
    | Panic p => (Panic p, w)
    | Ret w =>
        let '(r, err, w) :=
          conn_Do "HMGET" (aString key :: map aString (elems fields)) w in
        let '(values, err) := redis.Strings r err in
        (spliceMap fields values err, conn_Close w)
    end.

Definition HMGetKeys (d : RedisDatabase Conn) (key : string) (w : World)
  : outcome (slice string) * World :=
  match pool_Get d w with
  | Panic p => (Panic p, w)
  | Ret w =>
      let '(r, err, w) := conn_Do "HKEYS" [aString key] w in
      let '(values, _) := redis.Strings r err in
      (Ret values, conn_Close w)
  end.

Definition HMGetAll (d : RedisDatabase Conn) (key : string) (w : World)
  : outcome (option (gmap string string)) * World :=
  match pool_Get d w with
  | Panic p => (Panic p, w)
  | Ret w =>
      let '(r, err, w) := conn_Do "HGETALL" [aString key] w in
      let '(values, _) := redis.StringMap r err in
      (Ret values, conn_Close w)
  end.

Definition HMSet (d : RedisDatabase Conn) (key hashKey : string)
    (value : string) (w : World)
  : outcome (option error) * World :=
  match pool_Get d w with
  | Panic p => (Panic p, w)
  | Ret w =>
      let '(_, err, w) :=
        conn_Do "HMSET" [aString key; aString hashKey; aBytes value] w in
      match err with
      | Some e =>
          let v := value in
          let v := if Nat.ltb 15 (String.length v)
                   then substring 0 12 v +:+ "..." else v in
          (Ret (Some (errorString ("error setting key " +:+ key +:+ ":"
                                   +:+ hashKey +:+ " to " +:+ v +:+ ": "
                                   +:+ Error e))),
           conn_Close w)
      | None => (Ret err, conn_Close w)
      end
  end.

Definition Incr (d : RedisDatabase Conn) (counterKey : string) (w : World)
  : outcome (Z * option error) * World :=
  match pool_Get d w with
  | Panic p => (Panic p, w)
  | Ret w =>
      let '(r, err, w) := conn_Do "INCR" [aString counterKey] w in
      let '(n, err) := redis.Int r err in
      (Ret (n, err), conn_Close w)
  end.

End Client.

Arguments mkWorld {Store} store trace.
Arguments store {Store} w.
Arguments trace {Store} w.
Arguments pool_Get {Conn Store} ready d w.
Arguments conn_Close {Store} w.
Arguments conn_Do {Store} Do name args w.
Arguments Ping {Conn Store} ready Do d w.
Arguments Get {Conn Store} ready Do d key w.
Arguments Set_ {Conn Store} ready Do d key value w.
Arguments Exists {Conn Store} ready Do d key w.
Arguments Delete {Conn Store} ready Do d key w.
Arguments GetKeys_loop {Store} Do fuel pattern iter keys w.
Arguments GetKeys {Conn Store} ready Do d fuel pattern w.
Arguments HMGet {Conn Store} ready Do d key fields w.
Arguments HMGetKeys {Conn Store} ready Do d key w.
Arguments HMGetAll {Conn Store} ready Do d key w.
Arguments HMSet {Conn Store} ready Do d key hashKey value w.
Arguments Incr {Conn Store} ready Do d counterKey w.

(** ** The scan loop as the specification words it *)

(** A scan reply is the pair of the next cursor and a batch of keys. *)
Definition scan_reply (r : redis.reply) : option (Z * list string) :=
  match r with
  | redis.rArray [c; b] =>
      match redis.Int c None, redis.Strings b None with
      | (nextCursor, None), (Some batch, None) => Some (nextCursor, batch)
      | _, _ => None
      end
  | _ => None
  end.

Section Scan.

Variable Store : Type.
Variable Do :
  Store -> string -> list arg -> redis.reply * option error * Store.

Definition scan_request (pattern : string) (cursor : Z) (w : World Store)
  : redis.reply * option error * World Store :=
  conn_Do Do "SCAN" [aInt cursor; aString "MATCH"; aString pattern] w.

(** Issue [(cursor, pattern)], receive [(nextCursor, batch)], append the
    batch, go on from [nextCursor], stop when it is 0. *)
Inductive ListKeys_spec (pattern : string)
  : Z -> list string -> World Store -> list string -> World Store -> Prop :=
| ListKeys_done cursor keys w r w' batch :
    scan_request pattern cursor w = (r, None, w') ->
    scan_reply r = Some (0, batch) ->
    ListKeys_spec pattern cursor keys w (keys ++ batch) w'
| ListKeys_next cursor keys w r w' nextCursor batch keys' w'' :
    scan_request pattern cursor w = (r, None, w') ->
    scan_reply r = Some (nextCursor, batch) ->
    nextCursor <> 0 ->
    ListKeys_spec pattern nextCursor (keys ++ batch) w' keys' w'' ->
    ListKeys_spec pattern cursor keys w keys' w''.

(** Round trips of the loop of [GetKeys] that do not leave it: the reply is
    an array of at least two items and the cursor read from it is not 0. *)
Inductive scan_rounds (pattern : string)
  : Z -> slice string -> World Store ->
    Z -> slice string -> World Store -> Prop :=
| scan_rounds_nil iter keys w :
    scan_rounds pattern iter keys w iter keys w
| scan_rounds_cons iter keys w arr0 arr1 rest w1 iter' keys' w' :
    scan_request pattern iter w
      = (redis.rArray (arr0 :: arr1 :: rest), None, w1) ->
    (redis.Int arr0 None).1 <> 0 ->
    scan_rounds pattern (redis.Int arr0 None).1
      (append keys (redis.Strings arr1 None).1) w1 iter' keys' w' ->
    scan_rounds pattern iter keys w iter' keys' w'.

End Scan.

Arguments scan_request {Store} Do pattern cursor w.
Arguments ListKeys_spec {Store} Do pattern _ _ _ _ _.
Arguments scan_rounds {Store} Do pattern _ _ _ _ _ _.
Arguments ListKeys_done {Store} Do pattern cursor keys w r w' batch _ _.
Arguments ListKeys_next
  {Store} Do pattern cursor keys w r w' nextCursor batch keys' w'' _ _ _ _.
Arguments scan_rounds_nil {Store} Do pattern iter keys w.
Arguments scan_rounds_cons
  {Store} Do pattern iter keys w arr0 arr1 rest w1 iter' keys' w' _ _ _.

(** The error [GetKeys] makes up when a round trip fails. *)
Definition retrieving (pattern : string) : error :=
  errorString ("error retrieving '" +:+ pattern +:+ "' keys").

(** ** A store that answers from a script *)

(** The replies still to be given, whatever is asked; once they are used up
    the connection fails. *)
Definition script : Type := list (redis.reply * option error).

Definition script_Do (s : script) (name : string) (args : list arg)
  : redis.reply * option error * script :=
  match s with
  | [] => (redis.rNil, Some (transportError "EOF"), [])
  | (r, err) :: rest => (r, err, rest)
  end.

Definition start (s : script) : World script := mkWorld s [].

(** The request of one scan round trip. *)
Definition SCAN (cursor : Z) (pattern : string) : event :=
  Command "SCAN" [aInt cursor; aString "MATCH"; aString pattern].

(** Two pages of keys: cursor 17 after the first, 0 after the second. *)
Definition two_pages : script :=
  [ (redis.rArray [redis.rBytes "17";
                   redis.rArray [redis.rBytes "user:1"; redis.rBytes "user:2"]],
     None);
    (redis.rArray [redis.rBytes "0"; redis.rArray [redis.rBytes "user:3"]],
     None) ].

(** One page, then the connection drops. *)
Definition page_then_drop : script :=
  [ (redis.rArray [redis.rBytes "17"; redis.rArray [redis.rBytes "user:1"]],
     None);
    (redis.rNil, Some (transportError "EOF")) ].

(** A first page whose cursor is 2^63, one more than the largest [int]. *)
Definition big_cursor : script :=
  [ (redis.rArray [redis.rBytes "9223372036854775808";
                   redis.rArray [redis.rBytes "k1"]],
     None);
    (redis.rArray [redis.rBytes "0"; redis.rArray [redis.rBytes "k2"]], None) ].

(** A connection that has dropped: every round trip fails. *)
Definition dropped : script := [].

(** The reply to [HKEYS] and to [HMGET] for a hash holding a=1, b=2. *)
Definition hash_names : script :=
  [ (redis.rArray [redis.rBytes "a"; redis.rBytes "b"], None) ].

Definition hash_values : script :=
  [ (redis.rArray [redis.rBytes "1"; redis.rBytes "2"], None) ].

(** A second reply that is an array of one item only. *)
Definition short_reply : script :=
  [ (redis.rArray [redis.rBytes "17"; redis.rArray [redis.rBytes "user:1"]],
     None);
    (redis.rArray [redis.rBytes "0"], None) ].

(** The reply to [HMGET] when the hash holds a=1 and has no field b. *)
Definition hash_with_gap : script :=
  [ (redis.rArray [redis.rBytes "1"; redis.rNil], None) ].

(** The reply to [INCR] for a counter that has reached 42. *)
Definition counter_reply : script := [ (redis.rInt 42, None) ].

(** Replies with an item that does not convert: an integer among the names
    of [HKEYS], as a value of [HGETALL], and within a batch of [SCAN]. *)
Definition mixed_names : script :=
  [ (redis.rArray [redis.rBytes "a"; redis.rInt 5; redis.rBytes "c"], None) ].

Definition mixed_pairs : script :=
  [ (redis.rArray [redis.rBytes "a"; redis.rBytes "1";
                   redis.rBytes "b"; redis.rInt 2], None) ].

Definition mixed_batch : script :=
  [ (redis.rArray [redis.rBytes "0";
                   redis.rArray [redis.rBytes "k1"; redis.rInt 5;
                                 redis.rBytes "k3"]],
     None) ].

(** The reply to [HGETALL] for a hash holding a=1, b=2. *)
Definition hash_pairs : script :=
  [ (redis.rArray [redis.rBytes "a"; redis.rBytes "1";
                   redis.rBytes "b"; redis.rBytes "2"], None) ].

(** The replies to [GET] for a key the store does not hold, to [EXISTS] for
    one it holds, and to [PING]. *)
Definition missing_key : script := [ (redis.rNil, None) ].

Definition one_key : script := [ (redis.rInt 1, None) ].

Definition pong : script := [ (redis.rString "PONG", None) ].

(** A session for the examples, and a host nobody listens on. *)
Definition refused : error :=
  transportError "dial tcp 127.0.0.1:6379: connect: connection refused".

Definition down_DialURL (redisURL : string) : option unit * option error :=
  (None, Some refused).

Definition up_DialURL (redisURL : string) : option unit * option error :=
  (Some tt, None).

(** A pool with a connection at hand, and one that has to dial. *)
Definition warm (s : script) : bool := true.
Definition cold (s : script) : bool := false.

(** The handle on a store that is up, and on one that is down. *)
Definition db : RedisDatabase unit :=
  mkRedisDatabase (newPool unit up_DialURL "redis://127.0.0.1:6379").

Definition db_down : RedisDatabase unit :=
  mkRedisDatabase (newPool unit down_DialURL "redis://127.0.0.1:6379").

(** ** Replies of the hash reads *)

(** The array that lists [names], and the array that lists [pairs] flat, as
    [HKEYS] and [HGETALL] answer; the mapping the pairs stand for, a later
    pair overwriting an earlier one of the same field. *)
Definition names_reply (names : list string) : list redis.reply :=
  map redis.rBytes names.

Definition pairs_reply (pairs : list (string * string)) : list redis.reply :=
  flat_map (fun kv => [redis.rBytes kv.1; redis.rBytes kv.2]) pairs.

Definition pairs_map (pairs : list (string * string)) : gmap string string :=
  foldl (fun m kv => <[kv.1 := kv.2]> m) ∅ pairs.

(** An item [Strings] copies, and an item that is a bulk string. *)
Definition is_text (x : redis.reply) : bool :=
  match x with
  | redis.rNil | redis.rString _ | redis.rBytes _ => true
  | _ => false
  end.

Definition is_bulk (x : redis.reply) : bool :=
  match x with
  | redis.rBytes _ => true
  | _ => false
  end.

(** ** Zipping positionally, as the specification words the reconciler *)

(** Later positions overwrite earlier ones. *)
Definition zip_map (fields values : list string) : gmap string string :=
  foldl (fun m kv => <[kv.1 := kv.2]> m) ∅ (zip fields values).

(** A bounded preview [v] of [value], as the specification words it: the
    value itself up to 15 bytes, else its first 12 bytes and an ellipsis. *)
Definition bounded_preview (value v : string) : Prop :=
  (String.length v <= 15)%nat
  /\ ((15 < String.length value)%nat ->
      exists first rest,
        value = first +:+ rest /\ String.length first = 12%nat
        /\ v = first +:+ "...")
  /\ ((String.length value <= 15)%nat -> v = value).

(** The shapes the reconciler accepts. *)
Definition same_shape (F V : slice string) : Prop :=
  F <> None /\ V <> None /\ len F = len V.

(** * Properties *)

(** ** The reconciler [spliceMap] *)

Lemma index_lookup {A} (l : list A) i x :
  l !! i = Some x -> index (Some l) i = Ret x.
Proof. intros H. unfold index. simpl. by rewrite H. Qed.

Lemma spliceMap_loop_zip n : forall i ks vs m,
  (i + n)%nat = length ks -> length ks = length vs ->
  spliceMap_loop n i (Some ks) (Some vs) m
  = Ret (foldl (fun m kv => <[kv.1 := kv.2]> m) m (drop i (zip ks vs))).
Proof.
  induction n as [|n IH]; intros i ks vs m Hn Hlen; simpl.
  - rewrite drop_ge; [done|]. rewrite length_zip_with. lia.
  - destruct (lookup_lt_is_Some_2 ks i) as [k Hk]; [lia|].
    destruct (lookup_lt_is_Some_2 vs i) as [v Hv]; [lia|].
    rewrite (index_lookup _ _ _ Hk), (index_lookup _ _ _ Hv).
    rewrite IH by lia.
    rewrite (drop_S (zip ks vs) (k, v) i); [done|].
    by rewrite lookup_zip_with, Hk, Hv.
Qed.

(** With both slices present and of one length the loop runs through and the
    upstream error, nil or not, comes back beside the mapping. *)
Lemma spliceMap_same_shape ks vs err :
  length ks = length vs ->
  spliceMap (Some ks) (Some vs) err = Ret (Some (zip_map ks vs), err).
Proof.
  intros Hlen. unfold spliceMap, len. simpl.
  rewrite Hlen, Nat.eqb_refl. simpl.
  rewrite <- Hlen, spliceMap_loop_zip by (simpl; lia).
  by rewrite drop_0.
Qed.

(** Every other shape gives no mapping; the error is the upstream one, or a
    fresh shape error when there is none. *)
Lemma spliceMap_other_shape F V err :
  ~ same_shape F V ->
  exists e, spliceMap F V err = Ret (None, Some e)
            /\ match err with
               | Some e' => e = e'
               | None => exists msg, e = errorString msg
               end.
Proof.
  intros Hshape. unfold spliceMap.
  destruct F as [ks|], V as [vs|]; simpl;
    try (destruct err; simpl; eauto; fail).
  destruct (Nat.eqb (len (Some ks)) (len (Some vs))) eqn:E.
  - exfalso. apply Hshape. apply Nat.eqb_eq in E. by repeat split.
  - destruct err; simpl; eauto.
Qed.

Lemma same_shape_dec F V : same_shape F V \/ ~ same_shape F V.
Proof.
  unfold same_shape. destruct F as [ks|], V as [vs|];
    try (right; intros (? & ? & ?); congruence).
  destruct (decide (len (Some ks) = len (Some vs))) as [E|E].
  - left. by repeat split.
  - right. intros (? & ? & ?). congruence.
Qed.

(** C1.  Called with a nil upstream error, [spliceMap] returns a mapping (the
    positional zip) and a nil error exactly when both slices are non-nil and
    of one length; on every other shape it returns no mapping and a shape
    error; and whatever the upstream error, it never panics. *)
Theorem spliceMap_nil_error_total (F V : slice string) :
  ((exists m, spliceMap F V None = Ret (Some m, None)) <-> same_shape F V)
  /\ (same_shape F V ->
      spliceMap F V None = Ret (Some (zip_map (elems F) (elems V)), None))
  /\ (~ same_shape F V ->
      exists msg, spliceMap F V None = Ret (None, Some (errorString msg)))
  /\ (forall err p, spliceMap F V err <> Panic p).
Proof.
  assert (Hok : forall err, same_shape F V ->
            spliceMap F V err = Ret (Some (zip_map (elems F) (elems V)), err)).
  { intros err (HF & HV & Hlen). destruct F as [ks|], V as [vs|]; try done.
    by apply spliceMap_same_shape. }
  split; [split|split; [|split]].
  - intros [m Hm]. destruct (same_shape_dec F V) as [|Hno]; [done|].
    destruct (spliceMap_other_shape F V None Hno) as (e & He & _). congruence.
  - intros Hs. rewrite (Hok None Hs). eauto.
  - apply Hok.
  - intros Hno.
    destruct (spliceMap_other_shape F V None Hno) as (e & He & Hmsg).
    destruct Hmsg as [msg ->]. eauto.
  - intros err p. destruct (same_shape_dec F V) as [Hs|Hno].
    + by rewrite (Hok err Hs).
    + destruct (spliceMap_other_shape F V err Hno) as (e & -> & _). done.
Qed.

Lemma spliceMap_nil_error_total_witness :
  same_shape (Some ["a"; "b"]) (Some ["1"; "2"])
  /\ spliceMap (Some ["a"; "b"]) (Some ["1"; "2"]) None
     = Ret (Some (<["b" := "2"]> (<["a" := "1"]> ∅)), None)
  /\ ~ same_shape (Some ["a"; "b"]) (Some ["1"])
  /\ (exists msg, spliceMap (Some ["a"; "b"]) (Some ["1"]) None
                  = Ret (None, Some (errorString msg)))
  /\ ~ same_shape (Some ["a"]) None
  /\ (exists msg, spliceMap (Some ["a"]) None None
                  = Ret (None, Some (errorString msg))).
Proof.
  assert (H1 : same_shape (Some ["a"; "b"]) (Some ["1"; "2"]))
    by (repeat split; discriminate).
  assert (H2 : ~ same_shape (Some ["a"; "b"]) (Some ["1"]))
    by (intros (_ & _ & H); discriminate H).
  assert (H3 : ~ same_shape (Some ["a"]) None)
    by (intros (_ & H & _); by apply H).
  split; [exact H1|]. split.
  { exact (proj1 (proj2 (spliceMap_nil_error_total _ _)) H1). }
  split; [exact H2|]. split.
  { exact (proj1 (proj2 (proj2 (spliceMap_nil_error_total _ _))) H2). }
  split; [exact H3|].
  exact (proj1 (proj2 (proj2 (spliceMap_nil_error_total _ _))) H3).
Defined.

(** C7 as stated fails: with a non-nil upstream error and two slices of one
    length, [spliceMap] still builds the mapping and returns it beside the
    error. *)
Lemma spliceMap_error_builds_mapping :
  spliceMap (Some ["a"]) (Some ["1"]) (Some (transportError "EOF"))
  = Ret (Some (<["a" := "1"]> ∅), Some (transportError "EOF"))
  /\ spliceMap (Some ["a"]) (Some ["1"]) (Some (transportError "EOF"))
     <> Ret (None, Some (transportError "EOF")).
Proof. split; [reflexivity | discriminate]. Qed.

(** C7, amended.  A non-nil upstream error [e] always comes back unchanged.
    The mapping beside it is nil when a slice is nil or the lengths differ;
    when both slices are non-nil and of one length it is the positional
    zip. *)
Theorem spliceMap_propagates_error (F V : slice string) (e : error) :
  exists m, spliceMap F V (Some e) = Ret (m, Some e)
            /\ (same_shape F V -> m = Some (zip_map (elems F) (elems V)))
            /\ (~ same_shape F V -> m = None).
Proof.
  destruct (same_shape_dec F V) as [Hs|Hno].
  - exists (Some (zip_map (elems F) (elems V))).
    pose proof Hs as (HF & HV & Hlen).
    destruct F as [ks|], V as [vs|]; try done.
    rewrite spliceMap_same_shape by done. split; [done|]. split; [done|tauto].
  - exists None.
    destruct (spliceMap_other_shape F V (Some e) Hno) as (e' & -> & He).
    simpl in He. subst e'. split; [done|]. split; [|done].
    intros Hs. by destruct Hno.
Qed.

Lemma spliceMap_propagates_error_witness :
  exists m, spliceMap (Some ["a"; "a"]) (Some ["1"; "2"]) (Some ErrNil)
            = Ret (m, Some ErrNil)
            /\ m = Some (<["a" := "2"]> (<["a" := "1"]> ∅)).
Proof.
  destruct (spliceMap_propagates_error (Some ["a"; "a"]) (Some ["1"; "2"])
              ErrNil) as (m & Hm & Hzip & _).
  exists m. split; [exact Hm|]. apply Hzip. repeat split; discriminate.
Defined.

(** ** The conversion helpers *)

Lemma elems_append {A} (s k : slice A) :
  elems (append s k) = elems s ++ elems k.
Proof.
  unfold append. by destruct s as [l|], (elems k) as [|x ks].
Qed.

(** Appending the nil slice changes nothing. *)
Lemma append_nil {A} (s : slice A) : append s None = s.
Proof.
  destruct s as [l|]; [|done]. unfold append. simpl. by rewrite app_nil_r.
Qed.

Lemma scan_reply_inv r nextCursor batch :
  scan_reply r = Some (nextCursor, batch) ->
  exists c b, r = redis.rArray [c; b]
              /\ redis.Int c None = (nextCursor, None)
              /\ redis.Strings b None = (Some batch, None).
Proof.
  unfold scan_reply. intros H.
  destruct r as [| | | | |a]; try discriminate.
  destruct a as [|c [|b [|x a]]]; try discriminate.
  destruct (redis.Int c None) as [n [e|]] eqn:EInt; try discriminate.
  destruct (redis.Strings b None) as [[l|] [e|]] eqn:EStrings; try discriminate.
  injection H as -> ->. by exists c, b.
Qed.

(** A helper handed a non-nil error passes it on with the zero value. *)
Lemma Values_passes_error r e : redis.Values r (Some e) = (None, Some e).
Proof. reflexivity. Qed.

Lemma Strings_passes_error r e : redis.Strings r (Some e) = (None, Some e).
Proof. reflexivity. Qed.

Lemma StringMap_passes_error r e : redis.StringMap r (Some e) = (None, Some e).
Proof. reflexivity. Qed.

(** [Strings] gives one string per item of an array, error or not. *)
Lemma Strings_loop_length a : length (redis.Strings_loop a).1 = length a.
Proof.
  induction a as [|x a IH]; [done|].
  destruct x; simpl; try (by rewrite length_replicate);
    destruct (redis.Strings_loop a); simpl in *; by rewrite IH.
Qed.

(** On items that are all nil, simple or bulk strings it does not fail. *)
Lemma Strings_loop_text a :
  forallb is_text a = true -> (redis.Strings_loop a).2 = None.
Proof.
  induction a as [|x a IH]; [done|]. simpl. intros H.
  apply andb_true_iff in H as [Hx Ha].
  destruct x; try discriminate; simpl;
    destruct (redis.Strings_loop a); simpl in *; auto.
Qed.

(** Bulk strings come back as they are. *)
Lemma Strings_loop_names names :
  redis.Strings_loop (names_reply names) = (names, None).
Proof.
  induction names as [|n names IH]; [done|].
  unfold names_reply in *. cbn [map redis.Strings_loop]. by rewrite IH.
Qed.

(** Bulk strings up to an item that does not convert: that item and all
    after it are left as empty strings. *)
Lemma Strings_loop_stops names x rest :
  is_text x = false ->
  (redis.Strings_loop (names_reply names ++ x :: rest)).1
  = names ++ replicate (S (length rest)) ""%string
  /\ (redis.Strings_loop (names_reply names ++ x :: rest)).2 <> None.
Proof.
  intros Hx. unfold names_reply.
  induction names as [|n names [IH1 IH2]].
  - by destruct x.
  - cbn [map app redis.Strings_loop].
    destruct (redis.Strings_loop (map redis.rBytes names ++ x :: rest)).
    simpl in *. by rewrite IH1.
Qed.

(** The pairs of [HGETALL] enter the map in order. *)
Lemma StringMap_loop_pairs pairs : forall i a m,
  redis.StringMap_loop i (pairs_reply pairs ++ a) m
  = redis.StringMap_loop (i + 2 * length pairs) a
      (foldl (fun m kv => <[kv.1 := kv.2]> m) m pairs).
Proof.
  unfold pairs_reply.
  induction pairs as [|[k v] pairs IH]; intros i a m.
  - simpl. by rewrite Nat.add_0_r.
  - cbn [flat_map app fst snd redis.StringMap_loop foldl length].
    rewrite IH. f_equal. lia.
Qed.

Lemma pairs_reply_length pairs :
  length (pairs_reply pairs) = (2 * length pairs)%nat.
Proof.
  induction pairs as [|[k v] pairs IH]; [done|].
  unfold pairs_reply in *. simpl. rewrite IH. lia.
Qed.

Lemma ParseInt_error s n e :
  strconv.ParseInt s = (n, Some e) -> n = 0 \/ n = maxInt64 \/ n = minInt64.
Proof.
  unfold strconv.ParseInt. destruct s as [|c rest]; [intros [= <- _]; by left|].
  destruct (strconv.ParseUint _) as [un err].
  repeat match goal with
         | |- context [if ?b then _ else _] => destruct b
         end; intros [= <- _]; auto.
Qed.

(** When [Int] fails the value beside the error is 0, unless the reply is a
    bulk string holding a number that does not fit: then it is the bound it
    overflowed. *)
Lemma Int_error r n e :
  redis.Int r None = (n, Some e) ->
  n = 0 \/ (exists p, r = redis.rBytes p /\ (n = maxInt64 \/ n = minInt64)).
Proof.
  unfold redis.Int. destruct r as [|z|p|s|s|a]; try (intros [= <- _]; by left).
  - destruct (negb _); intros [= <- _]; by left.
  - destruct (strconv.ParseInt p) as [m err] eqn:E. intros [= <- ->].
    destruct (ParseInt_error _ _ _ E) as [->|[->| ->]]; [by left| |];
      right; exists p; split; auto.
Qed.

(** ** The scan loop of [GetKeys] *)

(** A connection handed out is a borrow and nothing else. *)
Lemma pool_Get_borrows {Conn Store} (ready : Store -> bool)
    (d : RedisDatabase Conn) (w w0 : World Store) :
  pool_Get ready d w = Ret w0 -> w0 = mkWorld (store w) (trace w ++ [Borrow]).
Proof.
  unfold pool_Get. destruct (ready (store w)); [by intros [= <-]|].
  destruct (Dial (redisPool d) tt); [by intros [= <-]|discriminate].
Qed.

(** [Get] panics only when the pool has to dial and [Dial] panics. *)
Lemma pool_Get_panics {Conn Store} (ready : Store -> bool)
    (d : RedisDatabase Conn) (w : World Store) p :
  pool_Get ready d w = Panic p <->
  ready (store w) = false /\ Dial (redisPool d) tt = Panic p.
Proof.
  unfold pool_Get. destruct (ready (store w)).
  - split; [discriminate|]. by intros [? _].
  - destruct (Dial (redisPool d) tt); split; try discriminate.
    + by intros [_ ?].
    + by intros [= ->].
    + by intros [_ [= ->]].
Qed.

Section ScanProperties.

Variable Conn : Type.
Variable Store : Type.
Variable ready : Store -> bool.
Variable Do :
  Store -> string -> list arg -> redis.reply * option error * Store.
Variable d : RedisDatabase Conn.

(** One round trip whose reply is an array of at least two items: both
    conversion errors are dropped, the batch is appended, and the loop is
    left exactly when the cursor read is 0. *)
Lemma GetKeys_loop_round fuel pattern iter keys w arr0 arr1 rest w1 :
  scan_request Do pattern iter w
    = (redis.rArray (arr0 :: arr1 :: rest), None, w1) ->
  GetKeys_loop Do (S fuel) pattern iter keys w
  = if (redis.Int arr0 None).1 =? 0
    then Some (Ret (append keys (redis.Strings arr1 None).1, None), w1)
    else GetKeys_loop Do fuel pattern (redis.Int arr0 None).1
           (append keys (redis.Strings arr1 None).1) w1.
Proof.
  unfold scan_request. intros H. simpl. rewrite H. simpl.
  by destruct (redis.Int arr0 None), (redis.Strings arr1 None).
Qed.

(** One round trip that fails: the loop is left with the keys it holds. *)
Lemma GetKeys_loop_fail fuel pattern iter keys w r err w1 e :
  scan_request Do pattern iter w = (r, err, w1) ->
  (redis.Values r err).2 = Some e ->
  GetKeys_loop Do (S fuel) pattern iter keys w
  = Some (Ret (keys, Some (retrieving pattern)), w1).
Proof.
  unfold scan_request. intros H HV. simpl. rewrite H.
  destruct (redis.Values r err) as [arr err']. simpl in HV. by subst err'.
Qed.

Lemma GetKeys_loop_rounds pattern iter keys w iter' keys' w' :
  scan_rounds Do pattern iter keys w iter' keys' w' ->
  exists n, forall fuel,
    GetKeys_loop Do (n + fuel) pattern iter keys w
    = GetKeys_loop Do fuel pattern iter' keys' w'.
Proof.
  induction 1
    as [|iter keys w arr0 arr1 rest w1 iter' keys' w' Hreq Hnz _ [n IH]].
  - by exists O.
  - exists (S n). intros fuel. simpl plus.
    rewrite (GetKeys_loop_round _ _ _ _ _ _ _ _ _ Hreq).
    apply Z.eqb_neq in Hnz. by rewrite Hnz.
Qed.

Lemma GetKeys_loop_spec pattern cursor acc w keys w' :
  ListKeys_spec Do pattern cursor acc w keys w' ->
  forall s, elems s = acc ->
  exists n ks,
    elems ks = keys
    /\ (forall fuel, (n <= fuel)%nat ->
          GetKeys_loop Do fuel pattern cursor s w = Some (Ret (ks, None), w'))
    /\ (forall fuel, (fuel < n)%nat ->
          GetKeys_loop Do fuel pattern cursor s w = None).
Proof.
  induction 1 as [cursor acc w r w' batch Hreq Hrep
                 |cursor acc w r w' next batch keys w'' Hreq Hrep Hnz _ IH];
    intros s Hs;
    destruct (scan_reply_inv _ _ _ Hrep) as (c & b & -> & HInt & HStr).
  - exists 1%nat, (append s (Some batch)). split; [|split].
    + by rewrite elems_append, Hs.
    + intros [|fuel] Hfuel; [lia|].
      rewrite (GetKeys_loop_round _ _ _ _ _ _ _ _ _ Hreq), HInt, HStr. done.
    + intros fuel Hfuel. by replace fuel with O by lia.
  - destruct (IH (append s (Some batch))) as (n & ks & Hks & Hret & Hnone).
    { by rewrite elems_append, Hs. }
    apply Z.eqb_neq in Hnz.
    exists (S n), ks. split; [done|split].
    + intros [|fuel] Hfuel; [lia|].
      rewrite (GetKeys_loop_round _ _ _ _ _ _ _ _ _ Hreq), HInt, HStr. simpl.
      rewrite Hnz. apply Hret. lia.
    + intros [|fuel] Hfuel; [done|].
      rewrite (GetKeys_loop_round _ _ _ _ _ _ _ _ _ Hreq), HInt, HStr. simpl.
      rewrite Hnz. apply Hnone. lia.
Qed.


(** C3, amended.  When a scan round trip fails, after any number of rounds
    that went through, [GetKeys] returns an error that names the pattern
    and, beside it, the keys of the earlier batches: they are not dropped. *)
Theorem GetKeys_error_keeps_keys pattern w w0 iter keys w1 r err w2 e :
  pool_Get ready d w = Ret w0 ->
  scan_rounds Do pattern 0 None w0 iter keys w1 ->
  scan_request Do pattern iter w1 = (r, err, w2) ->
  (redis.Values r err).2 = Some e ->
  exists n, forall fuel, (n <= fuel)%nat ->
    GetKeys ready Do d fuel pattern w
    = Some (Ret (keys, Some (retrieving pattern)), conn_Close w2).
Proof.
  intros Hget Hrounds Hreq HV.
  destruct (GetKeys_loop_rounds _ _ _ _ _ _ _ Hrounds) as [n Hn].
  exists (n + 1)%nat. intros fuel Hfuel. unfold GetKeys. rewrite Hget.
  replace fuel with (n + S (fuel - n - 1))%nat by lia.
  by rewrite Hn, (GetKeys_loop_fail _ _ _ _ _ _ _ _ _ Hreq HV).
Qed.

(** C10, amended.  A reply whose cursor item or batch item does not convert
    is taken without complaint: both conversion errors are dropped, and
    what [Strings] returns beside its error is appended as the batch.  A
    cursor that does not convert counts as 0, so that the loop is left with
    a nil error, except when it is a bulk string holding a number that does
    not fit 64 bits: then the cursor is the bound it overflowed and the loop
    goes on from there. *)
Theorem GetKeys_accepts_malformed_reply
    fuel pattern iter keys w arr0 arr1 rest w1 :
  scan_request Do pattern iter w
    = (redis.rArray (arr0 :: arr1 :: rest), None, w1) ->
  (forall n e, redis.Int arr0 None = (n, Some e) ->
     (n = 0
      /\ GetKeys_loop Do (S fuel) pattern iter keys w
         = Some (Ret (append keys (redis.Strings arr1 None).1, None), w1))
     \/ (exists p, arr0 = redis.rBytes p
                   /\ (n = maxInt64 \/ n = minInt64)
                   /\ GetKeys_loop Do (S fuel) pattern iter keys w
                      = GetKeys_loop Do fuel pattern n
                          (append keys (redis.Strings arr1 None).1) w1))
  /\ (forall k e, redis.Strings arr1 None = (k, Some e) ->
        GetKeys_loop Do (S fuel) pattern iter keys w
        = if (redis.Int arr0 None).1 =? 0
          then Some (Ret (append keys k, None), w1)
          else GetKeys_loop Do fuel pattern (redis.Int arr0 None).1
                 (append keys k) w1).
Proof.
  intros Hreq. split.
  - intros n e HInt.
    rewrite (GetKeys_loop_round _ _ _ _ _ _ _ _ _ Hreq), HInt. simpl.
    destruct (Int_error _ _ _ HInt) as [->|(p & -> & Hn)]; [by left|].
    right. exists p. split; [done|]. split; [done|].
    by destruct Hn as [-> | ->].
  - intros k e HStr.
    by rewrite (GetKeys_loop_round _ _ _ _ _ _ _ _ _ Hreq), HStr.
Qed.

End ScanProperties.

(** *** The scan loop on scripted stores *)


(** C3 as stated fails: the connection drops on the second round trip, and
    [GetKeys] returns the key of the first batch beside an error that is not
    the one the connection gave. *)
Lemma GetKeys_error_returns_earlier_keys :
  GetKeys warm script_Do db 2 "user:*" (start page_then_drop)
  = Some (Ret (Some ["user:1"],
               Some (errorString "error retrieving 'user:*' keys")),
          mkWorld [] [Borrow; SCAN 0 "user:*"; SCAN 17 "user:*"; Release])
  /\ len (Some ["user:1"]) <> O
  /\ errorString "error retrieving 'user:*' keys" <> transportError "EOF".
Proof. split; [reflexivity|]. split; discriminate. Qed.

Lemma GetKeys_error_keeps_keys_witness :
  exists n, forall fuel, (n <= fuel)%nat ->
    GetKeys warm script_Do db fuel "user:*" (start page_then_drop)
    = Some (Ret (Some ["user:1"], Some (retrieving "user:*")),
            mkWorld [] [Borrow; SCAN 0 "user:*"; SCAN 17 "user:*"; Release]).
Proof.
  apply (GetKeys_error_keeps_keys unit script warm script_Do db "user:*"
           (start page_then_drop) (mkWorld page_then_drop [Borrow])
           17 (Some ["user:1"])
           (mkWorld [(redis.rNil, Some (transportError "EOF"))]
                    [Borrow; SCAN 0 "user:*"])
           redis.rNil (Some (transportError "EOF"))
           (mkWorld [] [Borrow; SCAN 0 "user:*"; SCAN 17 "user:*"])
           (transportError "EOF")).
  - reflexivity.
  - eapply scan_rounds_cons.
    + reflexivity.
    + discriminate.
    + apply scan_rounds_nil.
  - reflexivity.
  - reflexivity.
Defined.

(** C10 as stated fails: the cursor of the first reply does not convert, yet
    it does not count as 0.  One round trip does not end the loop; the second
    request carries the largest [int] as cursor, and the caller gets the keys
    of the second batch too. *)
Lemma GetKeys_failed_cursor_not_zero :
  redis.Int (redis.rBytes "9223372036854775808") None
  = (maxInt64, Some (NumError "ParseInt" "9223372036854775808" ErrRange))
  /\ maxInt64 <> 0
  /\ GetKeys warm script_Do db 1 "*" (start big_cursor) = None
  /\ GetKeys warm script_Do db 2 "*" (start big_cursor)
     = Some (Ret (Some ["k1"; "k2"], None),
             mkWorld [] [Borrow; SCAN 0 "*"; SCAN 9223372036854775807 "*";
                         Release]).
Proof. repeat split; (reflexivity || discriminate). Qed.

Lemma GetKeys_accepts_malformed_reply_witness :
  GetKeys_loop script_Do 2 "*" 0 None (mkWorld big_cursor [Borrow])
  = GetKeys_loop script_Do 1 "*" maxInt64 (Some ["k1"])
      (mkWorld [(redis.rArray [redis.rBytes "0";
                               redis.rArray [redis.rBytes "k2"]], None)]
               [Borrow; SCAN 0 "*"])
  /\ GetKeys_loop script_Do 1 "*" 0 None (mkWorld mixed_batch [Borrow])
     = Some (Ret (Some ["k1"; ""; ""], None),
             mkWorld [] [Borrow; SCAN 0 "*"]).
Proof.
  split.
  - destruct (proj1 (GetKeys_accepts_malformed_reply script script_Do 1 "*" 0
                       None (mkWorld big_cursor [Borrow])
                       (redis.rBytes "9223372036854775808")
                       (redis.rArray [redis.rBytes "k1"]) []
                       (mkWorld [(redis.rArray [redis.rBytes "0";
                                   redis.rArray [redis.rBytes "k2"]], None)]
                                [Borrow; SCAN 0 "*"])
                       eq_refl)
                    maxInt64
                    (NumError "ParseInt" "9223372036854775808" ErrRange)
                    eq_refl)
      as [[H _]|(p & _ & _ & H)].
    + discriminate H.
    + exact H.
  - apply (proj2 (GetKeys_accepts_malformed_reply script script_Do 0 "*" 0
                    None (mkWorld mixed_batch [Borrow])
                    (redis.rBytes "0")
                    (redis.rArray [redis.rBytes "k1"; redis.rInt 5;
                                   redis.rBytes "k3"]) []
                    (mkWorld [] [Borrow; SCAN 0 "*"])
                    eq_refl)
             (Some ["k1"; ""; ""])
             (errorString
                "redigo: unexpected element type for Strings, got type int64")).
    reflexivity.
Defined.

(** ** The operations, one by one *)

Lemma length_append (s1 s2 : string) :
  String.length (s1 +:+ s2) = (String.length s1 + String.length s2)%nat.
Proof. induction s1 as [|c s1 IH]; simpl; [done|]. by rewrite IH. Qed.

Lemma substring_0_split n : forall s,
  (n <= String.length s)%nat ->
  exists rest, s = substring 0 n s +:+ rest
               /\ String.length (substring 0 n s) = n.
Proof.
  induction n as [|n IH]; intros s Hn.
  - exists s. by destruct s.
  - destruct s as [|c s]; simpl in Hn; [lia|].
    destruct (IH s) as (rest & Hs & Hlen); [lia|].
    exists rest. split.
    + change (String c s = String c (substring 0 n s +:+ rest)). by f_equal.
    + change (S (String.length (substring 0 n s)) = S n). by f_equal.
Qed.

(** The preview that [Set] and [HMSet] compute is a bounded preview. *)
Lemma preview_bounded value :
  bounded_preview value
    (if Nat.ltb 15 (String.length value)
     then substring 0 12 value +:+ "..." else value).
Proof.
  unfold bounded_preview.
  destruct (Nat.ltb_spec 15 (String.length value)) as [H|H].
  - destruct (substring_0_split 12 value) as (rest & Hv & Hlen); [lia|].
    split; [|split].
    + rewrite length_append, Hlen. simpl. lia.
    + intros _. by exists (substring 0 12 value), rest.
    + lia.
  - split; [lia|]. split; [lia|done].
Qed.

(** What [HMGetKeys] and [HMGetAll] return once they hold a connection: the
    value of the conversion, without its error. *)
Lemma HMGetKeys_returns {Conn Store} (ready : Store -> bool) Do
    (d : RedisDatabase Conn) key (w w0 : World Store) r err w1 :
  pool_Get ready d w = Ret w0 ->
  conn_Do Do "HKEYS" [aString key] w0 = (r, err, w1) ->
  HMGetKeys ready Do d key w = (Ret (redis.Strings r err).1, conn_Close w1).
Proof.
  intros Hget Hdo. unfold HMGetKeys. rewrite Hget, Hdo.
  by destruct (redis.Strings r err).
Qed.

Lemma HMGetAll_returns {Conn Store} (ready : Store -> bool) Do
    (d : RedisDatabase Conn) key (w w0 : World Store) r err w1 :
  pool_Get ready d w = Ret w0 ->
  conn_Do Do "HGETALL" [aString key] w0 = (r, err, w1) ->
  HMGetAll ready Do d key w = (Ret (redis.StringMap r err).1, conn_Close w1).
Proof.
  intros Hget Hdo. unfold HMGetAll. rewrite Hget, Hdo.
  by destruct (redis.StringMap r err).
Qed.

(** A failed round trip, or a reply that is no array, converts to nil. *)
Lemma Strings_no_array r err :
  err <> None \/ (forall a, r <> redis.rArray a) ->
  (redis.Strings r err).1 = None.
Proof.
  intros [H|H]; unfold redis.Strings; destruct err as [e|]; try done.
  destruct r; try done. by destruct (H a).
Qed.

Lemma StringMap_no_array r err :
  err <> None \/ (forall a, r <> redis.rArray a) ->
  (redis.StringMap r err).1 = None.
Proof.
  intros [H|H]; unfold redis.StringMap, redis.Values;
    destruct err as [e|]; try done.
  destruct r; try done. by destruct (H a).
Qed.

Lemma StringMap_pairs pairs :
  redis.StringMap (redis.rArray (pairs_reply pairs)) None
  = (Some (pairs_map pairs), None).
Proof.
  unfold redis.StringMap, redis.Values, len. cbn [elems].
  rewrite pairs_reply_length, Nat.mul_comm, Nat.Div0.mod_mul. cbn [Nat.eqb negb].
  rewrite <- (app_nil_r (pairs_reply pairs)), StringMap_loop_pairs.
  by destruct pairs.
Qed.

Lemma StringMap_stops pairs k v rest :
  is_bulk k && is_bulk v = false ->
  (length rest mod 2 = 0)%nat ->
  (redis.StringMap (redis.rArray (pairs_reply pairs ++ k :: v :: rest)) None).1
  = Some (pairs_map pairs).
Proof.
  intros Hkv Hrest. unfold redis.StringMap, redis.Values, len. cbn [elems].
  rewrite length_app, pairs_reply_length. cbn [length].
  replace (2 * length pairs + S (S (length rest)))%nat
    with (length rest + (length pairs + 1) * 2)%nat by lia.
  rewrite Nat.Div0.mod_add, Hrest. cbn [Nat.eqb negb].
  rewrite StringMap_loop_pairs.
  destruct k; try (by destruct rest); destruct v; by destruct rest.
Qed.

Lemma StringMap_odd a :
  (length a mod 2 <> 0)%nat ->
  (redis.StringMap (redis.rArray a) None).1 = None.
Proof.
  intros H. unfold redis.StringMap, redis.Values, len. cbn [elems].
  by destruct (Nat.eqb_spec (length a mod 2) 0).
Qed.

Section OperationProperties.

Variable Conn : Type.
Variable Store : Type.
Variable ready : Store -> bool.
Variable Do :
  Store -> string -> list arg -> redis.reply * option error * Store.
Variable d : RedisDatabase Conn.

(** C5.  Called with no field name, [HMGet] returns a usage error and
    leaves the world as it found it: nothing is borrowed from the pool and
    no command is issued. *)
Theorem HMGet_no_fields key fields (w : World Store) :
  len fields = O ->
  HMGet ready Do d key fields w
  = (Ret (None, Some (errorString "redis: at least once field is required")),
     w).
Proof. intros H. unfold HMGet. by rewrite H. Qed.


(** C9.  When [Set] or [HMSet] fails, the message of the error holds a
    bounded preview of the value: the value in full when it has at most 15
    bytes, else its first 12 bytes followed by three dots; never more than
    15 bytes. *)
Theorem value_preview_bounded key hashKey value (w w0 : World Store) :
  pool_Get ready d w = Ret w0 ->
  (forall r e w1,
      conn_Do Do "SET" [aString key; aBytes value] w0 = (r, Some e, w1) ->
      exists v,
        bounded_preview value v
        /\ Set_ ready Do d key value w
           = (Ret (Some (errorString ("error setting key " +:+ key +:+ " to "
                                      +:+ v +:+ ": " +:+ Error e))),
              conn_Close w1))
  /\ (forall r e w1,
        conn_Do Do "HMSET" [aString key; aString hashKey; aBytes value] w0
          = (r, Some e, w1) ->
        exists v,
          bounded_preview value v
          /\ HMSet ready Do d key hashKey value w
             = (Ret (Some (errorString ("error setting key " +:+ key +:+ ":"
                                        +:+ hashKey +:+ " to " +:+ v +:+ ": "
                                        +:+ Error e))),
                conn_Close w1)).
Proof.
  intros Hget.
  split; intros r e w1 Hdo; eexists; (split; [apply preview_bounded|]).
  - unfold Set_. by rewrite Hget, Hdo.
  - unfold HMSet. by rewrite Hget, Hdo.
Qed.

(** C8, amended.  [Ping], [Get], [Set], [Exists] and [HMSet] return the
    failure wrapped: a text that names the operation and the key or field,
    then the message of the underlying error.  [GetKeys] returns a fresh
    error that names the pattern.  [HMGet] hands the error of the round
    trip on as it is. *)
Theorem operation_errors
    key hashKey value pattern fields (w w0 : World Store) :
  pool_Get ready d w = Ret w0 ->
  (forall r err w1 e,
      conn_Do Do "PING" [] w0 = (r, err, w1) ->
      (redis.String r err).2 = Some e ->
      Ping ready Do d w
      = (Ret (Some (errorString ("cannot 'PING' db: " +:+ Error e))),
         conn_Close w1))
  /\ (forall r err w1 data e,
        conn_Do Do "GET" [aString key] w0 = (r, err, w1) ->
        redis.Bytes r err = (data, Some e) ->
        Get ready Do d key w
        = (Ret (data,
                Some (errorString ("error getting key " +:+ key +:+ ": "
                                   +:+ Error e))),
           conn_Close w1))
  /\ (forall r w1 e,
        conn_Do Do "SET" [aString key; aBytes value] w0 = (r, Some e, w1) ->
        exists v,
          Set_ ready Do d key value w
          = (Ret (Some (errorString ("error setting key " +:+ key +:+ " to "
                                     +:+ v +:+ ": " +:+ Error e))),
             conn_Close w1))
  /\ (forall r err w1 ok e,
        conn_Do Do "EXISTS" [aString key] w0 = (r, err, w1) ->
        redis.Bool r err = (ok, Some e) ->
        Exists ready Do d key w
        = (Ret (ok,
                Some (errorString ("error checking if key " +:+ key
                                   +:+ " exists: " +:+ Error e))),
           conn_Close w1))
  /\ (forall r w1 e,
        conn_Do Do "HMSET" [aString key; aString hashKey; aBytes value] w0
          = (r, Some e, w1) ->
        exists v,
          HMSet ready Do d key hashKey value w
          = (Ret (Some (errorString ("error setting key " +:+ key +:+ ":"
                                     +:+ hashKey +:+ " to " +:+ v +:+ ": "
                                     +:+ Error e))),
             conn_Close w1))
  /\ (forall r err w1 e fuel,
        scan_request Do pattern 0 w0 = (r, err, w1) ->
        (redis.Values r err).2 = Some e ->
        GetKeys ready Do d (S fuel) pattern w
        = Some (Ret (None,
                     Some (errorString ("error retrieving '" +:+ pattern
                                        +:+ "' keys"))),
                conn_Close w1))
  /\ (forall r w1 e,
        len fields <> O ->
        conn_Do Do "HMGET" (aString key :: map aString (elems fields)) w0
          = (r, Some e, w1) ->
        HMGet ready Do d key fields w = (Ret (None, Some e), conn_Close w1)).
Proof.
  intros Hget. repeat apply conj.
  - intros r err w1 e Hdo He. unfold Ping. rewrite Hget, Hdo.
    destruct (redis.String r err) as [x e']. simpl in He. by subst e'.
  - intros r err w1 data e Hdo He. unfold Get. by rewrite Hget, Hdo, He.
  - intros r w1 e Hdo. eexists. unfold Set_. by rewrite Hget, Hdo.
  - intros r err w1 ok e Hdo He. unfold Exists. by rewrite Hget, Hdo, He.
  - intros r w1 e Hdo. eexists. unfold HMSet. by rewrite Hget, Hdo.
  - intros r err w1 e fuel Hreq He. unfold GetKeys. rewrite Hget.
    by rewrite (GetKeys_loop_fail _ _ _ _ _ _ _ _ _ _ _ Hreq He).
  - intros r w1 e Hlen Hdo. unfold HMGet.
    destruct (Nat.eqb_spec (len fields) 0) as [|_]; [done|].
    rewrite Hget, Hdo, Strings_passes_error. f_equal.
    destruct (spliceMap_other_shape fields None (Some e)) as (e' & -> & <-);
      [|done].
    intros (_ & H & _). by apply H.
Qed.

End OperationProperties.

(** *** The operations on scripted stores *)

Lemma HMGet_no_fields_witness :
  HMGet cold script_Do db_down "h1" None (start two_pages)
  = (Ret (None, Some (errorString "redis: at least once field is required")),
     mkWorld two_pages [])
  /\ HMGet cold script_Do db_down "h1" (Some []) (start two_pages)
     = (Ret (None, Some (errorString "redis: at least once field is required")),
        mkWorld two_pages []).
Proof.
  split.
  - apply (HMGet_no_fields unit script cold script_Do db_down "h1" None
             (start two_pages)).
    reflexivity.
  - apply (HMGet_no_fields unit script cold script_Do db_down "h1" (Some [])
             (start two_pages)).
    reflexivity.
Defined.



Lemma value_preview_bounded_witness :
  exists v,
    bounded_preview "0123456789abcdefXYZ" v
    /\ Set_ warm script_Do db "user:1" "0123456789abcdefXYZ" (start dropped)
       = (Ret (Some (errorString ("error setting key user:1 to " +:+ v
                                  +:+ ": EOF"))),
          mkWorld [] [Borrow;
                      Command "SET" [aString "user:1";
                                     aBytes "0123456789abcdefXYZ"];
                      Release]).
Proof.
  apply (proj1 (value_preview_bounded unit script warm script_Do db "user:1"
                  "f" "0123456789abcdefXYZ" (start dropped)
                  (mkWorld dropped [Borrow]) eq_refl)
           redis.rNil (transportError "EOF")
           (mkWorld [] [Borrow;
                        Command "SET" [aString "user:1";
                                       aBytes "0123456789abcdefXYZ"]])).
  reflexivity.
Defined.

(** The previews themselves: 19 bytes are cut to 12 and three dots, 15 bytes
    are kept. *)
Example Set_long_value :
  (Set_ warm script_Do db "user:1" "0123456789abcdefXYZ" (start dropped)).1
  = Ret (Some (errorString
                 "error setting key user:1 to 0123456789ab...: EOF")).
Proof. reflexivity. Qed.

Example HMSet_short_value :
  (HMSet warm script_Do db "h1" "a" "0123456789abcde" (start dropped)).1
  = Ret (Some (errorString
                 "error setting key h1:a to 0123456789abcde: EOF")).
Proof. reflexivity. Qed.

(** C8 as stated fails: [Delete], [Incr] and [HMGet] return the error of the
    round trip as it is, with no operation and no key around it. *)
Lemma raw_error_returned :
  Delete warm script_Do db "user:1" (start dropped)
  = (Ret (Some (transportError "EOF")),
     mkWorld [] [Borrow; Command "DEL" [aString "user:1"]; Release])
  /\ Incr warm script_Do db "hits" (start dropped)
     = (Ret (0, Some (transportError "EOF")),
        mkWorld [] [Borrow; Command "INCR" [aString "hits"]; Release])
  /\ HMGet warm script_Do db "h1" (Some ["a"; "b"]) (start dropped)
     = (Ret (None, Some (transportError "EOF")),
        mkWorld [] [Borrow;
                    Command "HMGET" [aString "h1"; aString "a"; aString "b"];
                    Release]).
Proof. repeat split. Qed.

Lemma operation_errors_witness :
  Get warm script_Do db "user:1" (start dropped)
  = (Ret (None, Some (errorString "error getting key user:1: EOF")),
     mkWorld [] [Borrow; Command "GET" [aString "user:1"]; Release])
  /\ HMGet warm script_Do db "h1" (Some ["a"; "b"]) (start dropped)
     = (Ret (None, Some (transportError "EOF")),
        mkWorld [] [Borrow;
                    Command "HMGET" [aString "h1"; aString "a"; aString "b"];
                    Release]).
Proof.
  pose proof (operation_errors unit script warm script_Do db "user:1" "a"
                "alice" "user:*" (Some ["a"; "b"]) (start dropped)
                (mkWorld dropped [Borrow]) eq_refl) as (_ & HGet & _).
  pose proof (operation_errors unit script warm script_Do db "h1" "a" "alice"
                "user:*" (Some ["a"; "b"]) (start dropped)
                (mkWorld dropped [Borrow]) eq_refl)
    as (_ & _ & _ & _ & _ & _ & HHMGet).
  split.
  - apply (HGet redis.rNil (Some (transportError "EOF"))
             (mkWorld [] [Borrow; Command "GET" [aString "user:1"]])
             None (transportError "EOF")); reflexivity.
  - apply (HHMGet redis.rNil
             (mkWorld [] [Borrow;
                          Command "HMGET" [aString "h1"; aString "a";
                                           aString "b"]])
             (transportError "EOF")); [discriminate | reflexivity].
Defined.

(** The example of the specification: a=1, b=2 read back as a mapping. *)
Example HMGet_two_fields :
  HMGet warm script_Do db "h1" (Some ["a"; "b"]) (start hash_values)
  = (Ret (Some (<["b" := "2"]> (<["a" := "1"]> ∅)), None),
     mkWorld [] [Borrow;
                 Command "HMGET" [aString "h1"; aString "a"; aString "b"];
                 Release]).
Proof. reflexivity. Qed.

(** ** Dialing *)

Section PoolProperties.

Variable Conn : Type.
Variable DialURL : string -> option Conn * option error.

(** C4, amended.  Building the pool sets the two limits and dials nothing.
    When the pool dials and the attempt fails, the dial function panics
    with the message of the connection error and returns nothing to its
    caller; when the attempt succeeds it returns the session and a nil
    error. *)
Theorem Dial_panics_on_failure (redisURL : string) :
  MaxIdle (newPool Conn DialURL redisURL) = 80
  /\ MaxActive (newPool Conn DialURL redisURL) = 12000
  /\ (forall c e, DialURL redisURL = (c, Some e) ->
        Dial (newPool Conn DialURL redisURL) tt
        = Panic (PanicString (Error e)))
  /\ (forall c, DialURL redisURL = (c, None) ->
        Dial (newPool Conn DialURL redisURL) tt = Ret (c, None)).
Proof.
  split; [done|]. split; [done|].
  split; [intros c e H|intros c H]; simpl; by rewrite H.
Qed.

End PoolProperties.

(** C4 as stated fails: nobody listens at the address, and the dial function
    panics instead of returning the connection error. *)
Lemma Dial_failure_panics :
  Dial (newPool unit down_DialURL "redis://127.0.0.1:6379") tt
  = Panic (PanicString "dial tcp 127.0.0.1:6379: connect: connection refused")
  /\ forall res, Dial (newPool unit down_DialURL "redis://127.0.0.1:6379") tt
                 <> Ret res.
Proof. split; [reflexivity | discriminate]. Qed.

Lemma Dial_panics_on_failure_witness :
  Dial (newPool unit down_DialURL "redis://127.0.0.1:6379") tt
  = Panic (PanicString (Error refused))
  /\ Dial (newPool unit up_DialURL "redis://127.0.0.1:6379") tt
     = Ret (Some tt, None).
Proof.
  split.
  - apply (proj1 (proj2 (proj2 (Dial_panics_on_failure unit down_DialURL
                                  "redis://127.0.0.1:6379")))
             None refused).
    reflexivity.
  - apply (proj2 (proj2 (proj2 (Dial_panics_on_failure unit up_DialURL
                                  "redis://127.0.0.1:6379")))
             (Some tt)).
    reflexivity.
Defined.

(** ** What the mapping of [spliceMap] holds *)

Lemma foldl_insert_absent (l : list (string * string)) :
  forall (m : gmap string string) k,
  k ∉ l.*1 ->
  foldl (fun m kv => <[kv.1 := kv.2]> m) m l !! k = m !! k.
Proof.
  induction l as [|[k' v'] l IH]; intros m k Hk; simpl; [done|].
  simpl in Hk. apply not_elem_of_cons in Hk as [Hne Hk].
  rewrite IH by done. by apply lookup_insert_ne.
Qed.

Lemma foldl_insert_last (l : list (string * string)) :
  forall (m : gmap string string) i k v,
  l !! i = Some (k, v) ->
  (forall j v', (i < j)%nat -> l !! j <> Some (k, v')) ->
  foldl (fun m kv => <[kv.1 := kv.2]> m) m l !! k = Some v.
Proof.
  induction l as [|[k' v'] l IH]; intros m i k v Hi Hlast; [done|].
  destruct i as [|i]; simpl in *.
  - injection Hi as -> ->. rewrite foldl_insert_absent.
    + apply lookup_insert_eq.
    + intros Hin. apply list_elem_of_fmap in Hin as ([k2 v2] & -> & Hin).
      apply list_elem_of_lookup in Hin as [j Hj].
      apply (Hlast (S j) v2); [lia|done].
  - apply (IH _ i); [done|]. intros j v2 Hj. apply (Hlast (S j) v2). lia.
Qed.

Lemma foldl_insert_dom (l : list (string * string)) :
  forall m : gmap string string,
  dom (foldl (fun m kv => <[kv.1 := kv.2]> m) m l)
  = list_to_set l.*1 ∪ dom m.
Proof.
  induction l as [|[k v] l IH]; intros m; simpl.
  - by rewrite (left_id_L ∅ (∪)).
  - rewrite IH, dom_insert_L, !(assoc_L (∪)).
    by rewrite (comm_L (∪) (list_to_set l.*1) {[k]}).
Qed.

Lemma foldl_insert_size (l : list (string * string)) :
  forall m : gmap string string,
  (size (foldl (fun m kv => <[kv.1 := kv.2]> m) m l) <= size m + length l)%nat.
Proof.
  induction l as [|[k v] l IH]; intros m; simpl; [lia|].
  etrans; [apply IH|].
  destruct (m !! k) eqn:E.
  - rewrite map_size_insert_Some by done. lia.
  - rewrite map_size_insert_None by done. lia.
Qed.

Lemma zip_map_lookup_last ks vs i k v :
  length ks = length vs ->
  ks !! i = Some k -> vs !! i = Some v ->
  (forall j, (i < j)%nat -> ks !! j <> Some k) ->
  zip_map ks vs !! k = Some v.
Proof.
  intros Hlen Hk Hv Hlast. unfold zip_map. apply (foldl_insert_last _ _ i).
  - by rewrite lookup_zip_with, Hk, Hv.
  - intros j v' Hj Hz.
    apply lookup_zip_with_Some in Hz as (x & y & [= <- <-] & Hx & _).
    by apply (Hlast j).
Qed.

(** X1.  With as many values as fields, the mapping of [spliceMap] gives for
    a field the value at the last position where the field stands, and
    nothing for a name that is not among the fields. *)
Theorem spliceMap_last_position_wins ks vs err :
  length ks = length vs ->
  exists m,
    spliceMap (Some ks) (Some vs) err = Ret (Some m, err)
    /\ (forall i k v,
          ks !! i = Some k -> vs !! i = Some v ->
          (forall j, (i < j)%nat -> ks !! j <> Some k) ->
          m !! k = Some v)
    /\ (forall k, k ∉ ks -> m !! k = None).
Proof.
  intros Hlen. exists (zip_map ks vs).
  split; [by apply spliceMap_same_shape|]. split.
  - intros i k v. by apply zip_map_lookup_last.
  - intros k Hk. unfold zip_map. rewrite foldl_insert_absent; [done|].
    by rewrite fst_zip by lia.
Qed.

Lemma spliceMap_last_position_wins_witness :
  exists m,
    spliceMap (Some ["a"; "b"; "a"]) (Some ["1"; "2"; "3"]) None
    = Ret (Some m, None)
    /\ m !! "a" = Some "3" /\ m !! "b" = Some "2" /\ m !! "c" = None.
Proof.
  destruct (spliceMap_last_position_wins ["a"; "b"; "a"] ["1"; "2"; "3"] None
              eq_refl) as (m & Hm & Hlast & Habsent).
  exists m. split; [exact Hm|]. split; [|split].
  - apply (Hlast 2%nat); [reflexivity | reflexivity |].
    intros [|[|[|j]]] Hj; (lia || discriminate).
  - apply (Hlast 1%nat); [reflexivity | reflexivity |].
    intros [|[|[|j]]] Hj; (lia || discriminate).
  - apply Habsent. intros Hin.
    repeat (apply elem_of_cons in Hin as [Hin|Hin]; [discriminate Hin|]).
    by apply elem_of_nil in Hin.
Defined.

(** X2.  The keys of that mapping are the fields and no others, so that
    fields named twice count once: the mapping has at most as many entries as
    there are fields, and as many when no field is named twice. *)
Theorem spliceMap_keys_are_fields ks vs err :
  length ks = length vs ->
  exists m,
    spliceMap (Some ks) (Some vs) err = Ret (Some m, err)
    /\ (forall k, is_Some (m !! k) <-> k ∈ ks)
    /\ (size m <= length ks)%nat
    /\ (NoDup ks -> size m = length ks).
Proof.
  intros Hlen. exists (zip_map ks vs).
  split; [by apply spliceMap_same_shape|].
  assert (Hdom : dom (zip_map ks vs) = list_to_set ks).
  { unfold zip_map. rewrite foldl_insert_dom, fst_zip by lia.
    by rewrite dom_empty_L, (right_id_L ∅ (∪)). }
  split; [|split].
  - intros k. by rewrite <- elem_of_dom, Hdom, elem_of_list_to_set.
  - unfold zip_map. etrans; [apply foldl_insert_size|].
    rewrite map_size_empty, length_zip_with. lia.
  - intros Hnd. rewrite <- size_dom, Hdom. by apply size_list_to_set.
Qed.

Lemma spliceMap_keys_are_fields_witness :
  exists m,
    spliceMap (Some ["a"; "b"; "a"]) (Some ["1"; "2"; "3"]) None
    = Ret (Some m, None)
    /\ (size m <= 3)%nat.
Proof.
  destruct (spliceMap_keys_are_fields ["a"; "b"; "a"] ["1"; "2"; "3"] None
              eq_refl) as (m & Hm & _ & Hsize & _).
  exists m. split; [exact Hm | exact Hsize].
Defined.

(** ** More on the scan loop *)

Section ScanOutcomes.

Variable Conn : Type.
Variable Store : Type.
Variable ready : Store -> bool.
Variable Do :
  Store -> string -> list arg -> redis.reply * option error * Store.
Variable d : RedisDatabase Conn.

(** What the loop can end in, and what it has sent by then. *)
Lemma GetKeys_loop_ends fuel : forall pattern iter keys w res w',
  GetKeys_loop Do fuel pattern iter keys w = Some (res, w') ->
  ((exists ks, res = Ret (ks, None))
   \/ (exists ks, res = Ret (ks, Some (retrieving pattern)))
   \/ (exists i, (i < 2)%nat /\ res = Panic (IndexOutOfRange i i)))
  /\ exists cursors,
       trace w' = trace w ++ map (fun c => SCAN c pattern) (iter :: cursors)
       /\ (length cursors < fuel)%nat
       /\ Forall (fun c => c <> 0) cursors.
Proof.
  induction fuel as [|fuel IH]; intros pattern iter keys w res w' H;
    [discriminate|].
  cbn [GetKeys_loop] in H. unfold conn_Do in H.
  destruct (Do (store w) "SCAN" _) as [[r err] st].
  assert (Hone : forall w1 : World Store,
            w1 = mkWorld st (trace w ++ [SCAN iter pattern]) ->
            exists cursors,
              trace w1
              = trace w ++ map (fun c => SCAN c pattern) (iter :: cursors)
              /\ (length cursors < S fuel)%nat
              /\ Forall (fun c => c <> 0) cursors).
  { intros w1 ->. exists []. simpl. split; [done|]. split; [lia|constructor]. }
  destruct (redis.Values r err) as [arr [e|]].
  { injection H as <- <-. split; [eauto|]. by apply Hone. }
  destruct arr as [[|arr0 [|arr1 rest]]|]; cbn in H.
  - injection H as <- <-. split; [|by apply Hone].
    right; right. exists 0%nat. split; [lia|done].
  - destruct (redis.Int arr0 None) as [it e0]. injection H as <- <-.
    split; [|by apply Hone]. right; right. exists 1%nat. split; [lia|done].
  - destruct (redis.Int arr0 None) as [it e0].
    destruct (redis.Strings arr1 None) as [k e1].
    destruct (Z.eqb_spec it 0) as [->|Hnz].
    + injection H as <- <-. split; [eauto|]. by apply Hone.
    + apply IH in H as [Hres (cursors & Htr & Hlen & Hall)].
      split; [done|]. exists (it :: cursors). simpl in *.
      rewrite Htr, <- app_assoc. split; [done|]. split; [lia|].
      by constructor.
  - injection H as <- <-. split; [|by apply Hone].
    right; right. exists 0%nat. split; [lia|done].
Qed.



(** X5.  A reply that is an array of fewer than two items makes [GetKeys]
    panic on the index past its end; the keys of the earlier batches are
    lost with it, and the connection is released all the same. *)
Theorem GetKeys_short_reply_panics pattern w w0 iter keys w1 a w2 :
  pool_Get ready d w = Ret w0 ->
  scan_rounds Do pattern 0 None w0 iter keys w1 ->
  scan_request Do pattern iter w1 = (redis.rArray a, None, w2) ->
  (length a < 2)%nat ->
  exists n, forall fuel, (n <= fuel)%nat ->
    GetKeys ready Do d fuel pattern w
    = Some (Panic (IndexOutOfRange (length a) (length a)), conn_Close w2).
Proof.
  intros Hget Hrounds Hreq Hlen.
  destruct (GetKeys_loop_rounds _ _ _ _ _ _ _ _ _ Hrounds) as [n Hn].
  exists (n + 1)%nat. intros fuel Hfuel. unfold GetKeys. rewrite Hget.
  replace fuel with (n + S (fuel - n - 1))%nat by lia. rewrite Hn.
  unfold scan_request in Hreq. cbn [GetKeys_loop]. rewrite Hreq.
  destruct a as [|arr0 [|arr1 rest]]; cbn; [done| |simpl in Hlen; lia].
  by destruct (redis.Int arr0 None).
Qed.

End ScanOutcomes.



Lemma GetKeys_short_reply_panics_witness :
  exists n, forall fuel, (n <= fuel)%nat ->
    GetKeys warm script_Do db fuel "user:*" (start short_reply)
    = Some (Panic (IndexOutOfRange 1 1),
            mkWorld [] [Borrow; SCAN 0 "user:*"; SCAN 17 "user:*"; Release]).
Proof.
  apply (GetKeys_short_reply_panics unit script warm script_Do db "user:*"
           (start short_reply) (mkWorld short_reply [Borrow])
           17 (Some ["user:1"])
           (mkWorld [(redis.rArray [redis.rBytes "0"], None)]
                    [Borrow; SCAN 0 "user:*"])
           [redis.rBytes "0"]
           (mkWorld [] [Borrow; SCAN 0 "user:*"; SCAN 17 "user:*"])).
  - reflexivity.
  - eapply scan_rounds_cons.
    + reflexivity.
    + discriminate.
    + apply scan_rounds_nil.
  - reflexivity.
  - simpl. lia.
Defined.

(** With no connection at hand and nobody listening, [GetKeys] panics before
    it has borrowed or sent anything. *)
Example GetKeys_dial_panic :
  GetKeys cold script_Do db_down 2 "user:*" (start two_pages)
  = Some (Panic (PanicString
                   "dial tcp 127.0.0.1:6379: connect: connection refused"),
          start two_pages).
Proof. reflexivity. Qed.

(** ** More on the operations *)

(** [Strings] on an array of bulk strings and nils: one string per item, the
    empty string for a nil. *)
Lemma Strings_loop_bulk_or_nil items :
  Forall (fun x => x = redis.rNil \/ exists p, x = redis.rBytes p) items ->
  exists vs,
    redis.Strings_loop items = (vs, None)
    /\ length vs = length items
    /\ (forall i p, items !! i = Some (redis.rBytes p) -> vs !! i = Some p)
    /\ (forall i, items !! i = Some redis.rNil -> vs !! i = Some ""%string).
Proof.
  induction 1 as [|x items Hx _ (vs & Hvs & Hlen & Hbulk & Hnil)].
  - exists []. by repeat split.
  - destruct Hx as [->|[p ->]]; simpl; rewrite Hvs.
    + exists (""%string :: vs). split; [done|]. split; [simpl; lia|].
      split; intros [|i]; simpl; try done; auto.
    + exists (p :: vs). split; [done|]. split; [simpl; lia|].
      split; intros [|i]; simpl; try done; auto. by intros ? [= ->].
Qed.

Lemma wrap64_in_range n : minInt64 <= n <= maxInt64 -> wrap64 n = n.
Proof.
  unfold minInt64, maxInt64, wrap64. intros H.
  rewrite Z.mod_small; lia.
Qed.

Section MoreOperationProperties.

Variable Conn : Type.
Variable Store : Type.
Variable ready : Store -> bool.
Variable Do :
  Store -> string -> list arg -> redis.reply * option error * Store.
Variable d : RedisDatabase Conn.



(** X8.  Asked for fields named once each, and answered with one bulk string
    or nil per field, [HMGet] returns a mapping that gives each field the
    text at its own position; a field the hash does not hold (a nil) comes
    back as the empty string. *)
Theorem HMGet_reads_fields key ks (w w0 : World Store) items w1 :
  pool_Get ready d w = Ret w0 ->
  ks <> [] ->
  NoDup ks ->
  conn_Do Do "HMGET" (aString key :: map aString ks) w0
    = (redis.rArray items, None, w1) ->
  length items = length ks ->
  Forall (fun x => x = redis.rNil \/ exists p, x = redis.rBytes p) items ->
  exists m,
    HMGet ready Do d key (Some ks) w = (Ret (Some m, None), conn_Close w1)
    /\ (forall i f p, ks !! i = Some f -> items !! i = Some (redis.rBytes p) ->
                      m !! f = Some p)
    /\ (forall i f, ks !! i = Some f -> items !! i = Some redis.rNil ->
                    m !! f = Some ""%string).
Proof.
  intros Hget Hne Hnd Hdo Hlen Hitems.
  destruct (Strings_loop_bulk_or_nil items Hitems)
    as (vs & Hvs & Hlenvs & Hbulk & Hnil).
  exists (zip_map ks vs). split; [|split].
  - unfold HMGet. destruct ks as [|k ks']; [done|]. simpl len. simpl Nat.eqb.
    cbv iota. simpl elems. rewrite Hget, Hdo. unfold redis.Strings.
    rewrite Hvs. rewrite spliceMap_same_shape by congruence. done.
  - intros i f p Hf Hi.
    apply (zip_map_lookup_last ks vs i); [congruence|done| |].
    + by apply Hbulk.
    + intros j Hj Hfj. pose proof (NoDup_lookup _ _ _ _ Hnd Hf Hfj). lia.
  - intros i f Hf Hi.
    apply (zip_map_lookup_last ks vs i); [congruence|done| |].
    + by apply Hnil.
    + intros j Hj Hfj. pose proof (NoDup_lookup _ _ _ _ Hnd Hf Hfj). lia.
Qed.

(** X10.  [Get] returns data exactly when it returns no error.  A key the
    store does not hold (a nil reply) is an error, not empty data. *)
Theorem Get_data_or_error key (w w0 : World Store) :
  pool_Get ready d w = Ret w0 ->
  (exists data err,
      (Get ready Do d key w).1 = Ret (data, err)
      /\ (data = None <-> err <> None))
  /\ (forall st,
        Do (store w) "GET" [aString key] = (redis.rNil, None, st) ->
        (Get ready Do d key w).1
        = Ret (None,
               Some (errorString ("error getting key " +:+ key
                                  +:+ ": redigo: nil returned")))).
Proof.
  intros Hget. pose proof (pool_Get_borrows _ _ _ _ Hget) as ->.
  unfold Get, conn_Do. rewrite Hget. simpl.
  destruct (Do (store w) "GET" [aString key]) as [[r err] st]. split.
  - destruct err as [e|]; simpl; [eexists _, _; split; done|].
    destruct r; simpl; eexists _, _; (split; [done|]); split; congruence.
  - by intros st' [= -> ->].
Qed.

(** X11.  However long the value, the message of the error of [Set] is at
    most 39 bytes longer than the key and the underlying message together,
    and that of [HMSet] at most 40 bytes longer than key, field and
    underlying message together. *)
Theorem set_error_message_bounded key hashKey value (w w0 : World Store) :
  pool_Get ready d w = Ret w0 ->
  (forall r e w1,
      conn_Do Do "SET" [aString key; aBytes value] w0 = (r, Some e, w1) ->
      exists msg,
        Set_ ready Do d key value w
        = (Ret (Some (errorString msg)), conn_Close w1)
        /\ (String.length msg
            <= String.length key + String.length (Error e) + 39)%nat)
  /\ (forall r e w1,
        conn_Do Do "HMSET" [aString key; aString hashKey; aBytes value] w0
          = (r, Some e, w1) ->
        exists msg,
          HMSet ready Do d key hashKey value w
          = (Ret (Some (errorString msg)), conn_Close w1)
          /\ (String.length msg
              <= String.length key + String.length hashKey
                 + String.length (Error e) + 40)%nat).
Proof.
  intros Hget. pose proof (preview_bounded value) as [Hv _].
  split; intros r e w1 Hdo; eexists; (split; [|]).
  - unfold Set_. by rewrite Hget, Hdo.
  - rewrite !length_append. simpl. lia.
  - unfold HMSet. by rewrite Hget, Hdo.
  - rewrite !length_append. simpl. lia.
Qed.

(** X12.  [Exists] never says true beside an error; an integer reply counts
    as true exactly when it is not 0. *)
Theorem Exists_true_only_without_error key (w w0 : World Store) :
  pool_Get ready d w = Ret w0 ->
  (exists ok err,
      (Exists ready Do d key w).1 = Ret (ok, err)
      /\ (err <> None -> ok = false))
  /\ (forall n st,
        Do (store w) "EXISTS" [aString key] = (redis.rInt n, None, st) ->
        (Exists ready Do d key w).1 = Ret (negb (n =? 0), None)).
Proof.
  intros Hget. pose proof (pool_Get_borrows _ _ _ _ Hget) as ->.
  unfold Exists, conn_Do. rewrite Hget. simpl.
  destruct (Do (store w) "EXISTS" [aString key]) as [[r err] st]. split.
  - destruct err as [e|]; simpl; [eexists _, _; split; done|].
    destruct r as [|n|p| | |]; simpl;
      try (eexists _, _; split; done).
    unfold strconv.ParseBool.
    repeat match goal with
           | |- context [if ?b then _ else _] => destruct b
           end; simpl; eexists _, _; split; done.
  - by intros n st' [= -> ->].
Qed.

(** X13.  [Ping] reports the store alive exactly when the round trip gives
    no error and the reply is a bulk or simple string: what the string says
    is not looked at. *)
Theorem Ping_alive_iff (w w0 : World Store) :
  pool_Get ready d w = Ret w0 ->
  (Ping ready Do d w).1 = Ret None
  <-> exists r st,
        Do (store w) "PING" [] = (r, None, st)
        /\ exists s, r = redis.rBytes s \/ r = redis.rString s.
Proof.
  intros Hget. pose proof (pool_Get_borrows _ _ _ _ Hget) as ->.
  unfold Ping, conn_Do. rewrite Hget. simpl.
  destruct (Do (store w) "PING" []) as [[r err] st]. split.
  - intros H. exists r, st.
    destruct err as [e|]; [discriminate|].
    split; [done|]. destruct r; try discriminate; eauto.
  - intros (r' & st' & [= -> -> ->] & s & [-> | ->]); done.
Qed.

(** X14.  An integer reply that fits an [int] is what [Incr] returns, with a
    nil error. *)
Theorem Incr_integer_reply counterKey (w w0 : World Store) n w1 :
  pool_Get ready d w = Ret w0 ->
  minInt64 <= n <= maxInt64 ->
  conn_Do Do "INCR" [aString counterKey] w0 = (redis.rInt n, None, w1) ->
  Incr ready Do d counterKey w = (Ret (n, None), conn_Close w1).
Proof.
  intros Hget Hn Hdo. unfold Incr. rewrite Hget, Hdo. unfold redis.Int.
  rewrite wrap64_in_range by done. by rewrite Z.eqb_refl.
Qed.

(** X9.  Answered with an array of bulk strings and nils that has more or
    fewer items than fields were asked for, [HMGet] returns no mapping and
    the error about different lengths. *)
Theorem HMGet_wrong_count key ks (w w0 : World Store) items w1 :
  pool_Get ready d w = Ret w0 ->
  ks <> [] ->
  conn_Do Do "HMGET" (aString key :: map aString ks) w0
    = (redis.rArray items, None, w1) ->
  length items <> length ks ->
  Forall (fun x => x = redis.rNil \/ exists p, x = redis.rBytes p) items ->
  HMGet ready Do d key (Some ks) w
  = (Ret (None,
          Some (errorString "redis: cannot splice keys supplied to HMGET with values returned because their lengths are different")),
     conn_Close w1).
Proof.
  intros Hget Hne Hdo Hlen Hitems.
  destruct (Strings_loop_bulk_or_nil items Hitems) as (vs & Hvs & Hlenvs & _).
  unfold HMGet. destruct ks as [|k ks']; [done|]. simpl len. simpl Nat.eqb.
  cbv iota. simpl elems. rewrite Hget, Hdo. unfold redis.Strings. rewrite Hvs.
  assert (Hneq : Nat.eqb (len (Some (k :: ks'))) (len (Some vs)) = false).
  { apply Nat.eqb_neq. unfold len. simpl elems. congruence. }
  unfold spliceMap. cbv zeta. by rewrite Hneq.
Qed.

End MoreOperationProperties.

(** *** More operations on scripted stores *)

Lemma HMGet_reads_fields_witness :
  exists m,
    HMGet warm script_Do db "h1" (Some ["a"; "b"]) (start hash_with_gap)
    = (Ret (Some m, None),
       mkWorld [] [Borrow;
                   Command "HMGET" [aString "h1"; aString "a"; aString "b"];
                   Release])
    /\ m !! "a" = Some "1" /\ m !! "b" = Some "".
Proof.
  destruct (HMGet_reads_fields unit script warm script_Do db "h1" ["a"; "b"]
              (start hash_with_gap) (mkWorld hash_with_gap [Borrow])
              [redis.rBytes "1"; redis.rNil]
              (mkWorld [] [Borrow;
                           Command "HMGET" [aString "h1"; aString "a";
                                            aString "b"]]))
    as (m & Hm & Hbulk & Hnil).
  - reflexivity.
  - discriminate.
  - apply NoDup_cons_2; [|apply NoDup_singleton].
    intros H. apply list_elem_of_singleton in H. discriminate H.
  - reflexivity.
  - reflexivity.
  - constructor; [right; by exists "1"|].
    constructor; [by left | constructor].
  - exists m. split; [exact Hm|]. split.
    + apply (Hbulk 0%nat); reflexivity.
    + apply (Hnil 1%nat); reflexivity.
Defined.

Lemma HMGet_wrong_count_witness :
  HMGet warm script_Do db "h1" (Some ["a"]) (start hash_values)
  = (Ret (None,
          Some (errorString "redis: cannot splice keys supplied to HMGET with values returned because their lengths are different")),
     mkWorld [] [Borrow; Command "HMGET" [aString "h1"; aString "a"]; Release]).
Proof.
  apply (HMGet_wrong_count unit script warm script_Do db "h1" ["a"]
           (start hash_values) (mkWorld hash_values [Borrow])
           [redis.rBytes "1"; redis.rBytes "2"]
           (mkWorld [] [Borrow; Command "HMGET" [aString "h1"; aString "a"]])).
  - reflexivity.
  - discriminate.
  - reflexivity.
  - discriminate.
  - constructor; [right; by exists "1"|].
    constructor; [right; by exists "2" | constructor].
Defined.

Lemma Get_data_or_error_witness :
  (Get warm script_Do db "user:9" (start missing_key)).1
  = Ret (None,
         Some (errorString "error getting key user:9: redigo: nil returned")).
Proof.
  apply (proj2 (Get_data_or_error unit script warm script_Do db "user:9"
                  (start missing_key) (mkWorld missing_key [Borrow]) eq_refl)
           []).
  reflexivity.
Defined.

Lemma set_error_message_bounded_witness :
  exists msg,
    Set_ warm script_Do db "user:1" "0123456789abcdefXYZ0123456789"
      (start dropped)
    = (Ret (Some (errorString msg)),
       mkWorld [] [Borrow;
                   Command "SET" [aString "user:1";
                                  aBytes "0123456789abcdefXYZ0123456789"];
                   Release])
    /\ (String.length msg <= 6 + 3 + 39)%nat.
Proof.
  apply (proj1 (set_error_message_bounded unit script warm script_Do db
                  "user:1" "f" "0123456789abcdefXYZ0123456789" (start dropped)
                  (mkWorld dropped [Borrow]) eq_refl)
           redis.rNil (transportError "EOF")
           (mkWorld [] [Borrow;
                        Command "SET" [aString "user:1";
                                       aBytes "0123456789abcdefXYZ0123456789"]])).
  reflexivity.
Defined.

Lemma Exists_true_only_without_error_witness :
  (Exists warm script_Do db "user:1" (start one_key)).1 = Ret (true, None).
Proof.
  apply (proj2 (Exists_true_only_without_error unit script warm script_Do db
                  "user:1" (start one_key) (mkWorld one_key [Borrow]) eq_refl)
           1 []).
  reflexivity.
Defined.

Lemma Ping_alive_iff_witness :
  (Ping warm script_Do db (start pong)).1 = Ret None.
Proof.
  apply (proj2 (Ping_alive_iff unit script warm script_Do db (start pong)
                  (mkWorld pong [Borrow]) eq_refl)).
  exists (redis.rString "PONG"), []. split; [reflexivity|].
  exists "PONG". by right.
Defined.

Lemma Incr_integer_reply_witness :
  Incr warm script_Do db "hits" (start counter_reply)
  = (Ret (42, None),
     mkWorld [] [Borrow; Command "INCR" [aString "hits"]; Release]).
Proof.
  apply (Incr_integer_reply unit script warm script_Do db "hits"
           (start counter_reply) (mkWorld counter_reply [Borrow]) 42
           (mkWorld [] [Borrow; Command "INCR" [aString "hits"]])).
  - reflexivity.
  - unfold minInt64, maxInt64. lia.
  - reflexivity.
Defined.

(** With no connection at hand and nobody listening, an operation panics
    with the message of the dial error and leaves the trace empty. *)
Example Ping_dial_panic :
  Ping cold script_Do db_down (start pong)
  = (Panic (PanicString
              "dial tcp 127.0.0.1:6379: connect: connection refused"),
     start pong).
Proof. reflexivity. Qed.
